(** * spaces-tracker: sourcemap mirroring and change report

    A shallow embedding of [src/main.js].  The program is a Node.js script;
    every function of the script is translated below under its own name.
    The platform pieces it calls (string methods, [path], [Intl], [fetch],
    [fs], [Promise.all]) are modelled after their documented behaviour, and
    the parts whose behaviour cannot be written down here (the MD5 digest,
    the ICU collation behind [localeCompare], the file system itself) are
    taken as parameters. *)

From Stdlib Require Import ZArith Ascii List Lia Permutation Sorted.
From Stdlib Require String DecimalString.
From stdpp Require Import base list gmap strings.

Import ListNotations.
Local Open Scope Z_scope.

(** ** JavaScript strings *)

Module JsString.

(** The line feed, written ['\n'] in the source. *)
Definition nl : string := String "010"%char EmptyString.

(** [Array.prototype.join(sep)] on an array of strings. *)
Definition join (sep : string) (parts : list string) : string :=
  String.concat sep parts.

(** [s.startsWith(p)]. *)
Fixpoint startsWith (p s : string) : bool :=
  match p with
  | EmptyString => true
  | String a p' =>
      match s with
      | EmptyString => false
      | String b s' => Ascii.eqb a b && startsWith p' s'
      end
  end.

(** [s.slice(n)]: the string without its first [n] characters. *)
Fixpoint drop (n : nat) (s : string) : string :=
  match n, s with
  | O, _ => s
  | S _, EmptyString => EmptyString
  | S k, String _ rest => drop k rest
  end.

(** [s.replaceAll(pat, rep)] for a non-empty string pattern: the
    occurrences of [pat] are found from left to right without overlap.
    [skip] counts the characters of an occurrence still to be passed
    over.  (With an empty pattern JavaScript inserts [rep] between all
    characters; the program never does that and the text is returned
    unchanged here.) *)
Fixpoint replaceAll_go (pat rep : string) (skip : nat) (s : string) : string :=
  match s with
  | EmptyString => EmptyString
  | String c rest =>
      match skip with
      | S k => replaceAll_go pat rep k rest
      | O =>
          if startsWith pat s
          then rep +:+ replaceAll_go pat rep (Nat.pred (String.length pat)) rest
          else String c (replaceAll_go pat rep O rest)
      end
  end.

Definition replaceAll (s pat rep : string) : string :=
  match pat with
  | EmptyString => s
  | _ => replaceAll_go pat rep O s
  end.

(** Template-literal conversion of a non-negative integer:
    [`${n}`] is its decimal numeral. *)
Definition ofNat (n : nat) : string :=
  DecimalString.NilZero.string_of_uint (Nat.to_uint n).

(** The characters of the class [[a-z]]. *)
Definition isLower (c : ascii) : bool :=
  let n := nat_of_ascii c in (97 <=? n)%nat && (n <=? 122)%nat.

(** All characters are in [[a-z]]. *)
Definition allLower (s : string) : bool :=
  forallb isLower (String.list_ascii_of_string s).

(** Longest prefix of characters satisfying [p], and the rest. *)
Fixpoint span (p : ascii -> bool) (s : string) : string * string :=
  match s with
  | EmptyString => (EmptyString, EmptyString)
  | String c rest =>
      if p c then let '(a, b) := span p rest in (String c a, b)
      else (EmptyString, s)
  end.

(** Splitting at every occurrence of a separator character:
    [s.split(sep)] for a one-character [sep]. *)
Fixpoint split_go (sep : ascii) (cur : string) (s : string) : list string :=
  match s with
  | EmptyString => [String.rev cur]
  | String c rest =>
      if Ascii.eqb c sep then String.rev cur :: split_go sep EmptyString rest
      else split_go sep (String c cur) rest
  end.

Definition split (sep : ascii) (s : string) : list string :=
  split_go sep EmptyString s.

(** Last character of a string, if any. *)
Fixpoint last (s : string) : option ascii :=
  match s with
  | EmptyString => None
  | String c EmptyString => Some c
  | String _ rest => last rest
  end.

End JsString.


(** ** The [path] module (POSIX flavour)

    [path.join] and [path.dirname] are Node library functions.  The
    definitions follow Node's [path.posix]: [join] concatenates the
    non-empty arguments with ['/'] and normalizes the result; [normalize]
    drops empty and ['.'] segments, resolves ['..'] against the segment
    before it, keeps a trailing slash and returns ['.'] for an empty
    result. *)

Module Path.

Definition slash : ascii := "/"%char.

(** One step of the segment walk of [normalizeString]: [stack] holds the
    segments kept so far, most recent first. *)
Definition pushSegment (allowAboveRoot : bool) (stack : list string)
    (seg : string) : list string :=
  if String.eqb seg "" then stack
  else if String.eqb seg "." then stack
  else if String.eqb seg ".." then
    match stack with
    | top :: below =>
        if String.eqb top ".."
        then (if allowAboveRoot then seg :: stack else stack)
        else below
    | [] => if allowAboveRoot then [seg] else []
    end
  else seg :: stack.

Definition normalizeString (p : string) (allowAboveRoot : bool) : string :=
  JsString.join "/"
    (rev (fold_left (pushSegment allowAboveRoot) (JsString.split slash p) [])).

Definition isAbsolute (p : string) : bool :=
  match p with
  | String c _ => Ascii.eqb c slash
  | EmptyString => false
  end.

Definition normalize (p : string) : string :=
  match p with
  | EmptyString => "."
  | _ =>
      let absolute := isAbsolute p in
      let trailingSeparator :=
        match JsString.last p with
        | Some c => Ascii.eqb c slash
        | None => false
        end in
      let body := normalizeString p (negb absolute) in
      match body with
      | EmptyString =>
          if absolute then "/"
          else if trailingSeparator then "./" else "."
      | _ =>
          let body := if trailingSeparator then body +:+ "/" else body in
          if absolute then "/" +:+ body else body
      end
  end.

(** [path.join(...args)]. *)
Definition join (args : list string) : string :=
  match filter (fun a => negb (String.eqb a "")) args with
  | [] => "."
  | parts => normalize (JsString.join "/" parts)
  end.

(** [path.dirname(p)]: the text before the last separator that is
    followed by a name, ignoring trailing separators. *)
Fixpoint dirname_scan (rev_tail : list ascii) (matchedSlash : bool)
  : option (list ascii) :=
  (* [rev_tail] is the path from its last character down to index 1;
     the result is the reversed prefix that ends before the break. *)
  match rev_tail with
  | [] => None
  | c :: before =>
      if Ascii.eqb c slash then
        if matchedSlash then dirname_scan before true
        else Some before
      else dirname_scan before false
  end.

Definition dirname (p : string) : string :=
  match p with
  | EmptyString => "."
  | String c0 rest =>
      let hasRoot := Ascii.eqb c0 slash in
      match dirname_scan (rev (String.list_ascii_of_string rest)) true with
      | None => if hasRoot then "/" else "."
      | Some before =>
          match before with
          | [] => if hasRoot then "//" else String c0 EmptyString
          | _ => String c0 (String.string_of_list_ascii (rev before))
          end
      end
  end.

End Path.

(** ** Relative time: [UNITS], [Intl.RelativeTimeFormat], [formatTimeSince] *)

Module RelativeTime.

Inductive unit_name :=
  year | month | week | day | hour | minute | second.

Definition unit_eqb (a b : unit_name) : bool :=
  match a, b with
  | year, year | month, month | week, week | day, day
  | hour, hour | minute, minute | second, second => true
  | _, _ => false
  end.

(** [UNITS], in the insertion order that [Object.entries] follows.  All
    values are in milliseconds.  [(365 / 12) * 24 * 60 * 60 * 1000] is
    evaluated in double precision by the engine and yields the integer
    2628000000, written here as an exact integer quotient. *)
Definition UNITS : list (unit_name * Z) :=
  [ (year, 365 * 24 * 60 * 60 * 1000);
    (month, 365 * 24 * 60 * 60 * 1000 / 12);
    (week, 7 * 24 * 60 * 60 * 1000);
    (day, 24 * 60 * 60 * 1000);
    (hour, 60 * 60 * 1000);
    (minute, 60 * 1000);
    (second, 1000) ].

(** The integral numbers [Math.round] can return: an integer or the
    negative zero, which [Intl.RelativeTimeFormat] tells apart from 0. *)
Inductive jsInteger := JInt (z : Z) | NegZero.

(** [Math.round(num / den)] for integers [num] and [den > 0]: the
    nearest integer, halves going up; a negative quotient that rounds
    to zero gives [-0].  The quotient is taken exactly (the division of
    the source is a double division, which agrees for all differences
    between dates a file system can hold). *)
Definition Math_round_div (num den : Z) : jsInteger :=
  let r := (2 * num + den) / (2 * den) in
  if (r =? 0) && (num <? 0) then NegZero else JInt r.

(** Decimal digits in groups of three, as the English number format
    prints integers: [1234567] gives ["1,234,567"]. *)
Fixpoint group3 (rev_digits : list ascii) : list ascii :=
  match rev_digits with
  | a :: b :: c :: ((_ :: _) as more) => a :: b :: c :: ","%char :: group3 more
  | _ => rev_digits
  end.

Definition formatNumber (n : Z) : string :=
  String.string_of_list_ascii
    (rev (group3 (rev (String.list_ascii_of_string (JsString.ofNat (Z.to_nat n)))))).

Definition unitWord (u : unit_name) : string :=
  match u with
  | year => "year" | month => "month" | week => "week" | day => "day"
  | hour => "hour" | minute => "minute" | second => "second"
  end.

(** English plural rule for integers: only 1 is singular. *)
Definition unitPhrase (u : unit_name) (magnitude : Z) : string :=
  if magnitude =? 1 then unitWord u else unitWord u +:+ "s".

(** [timeFormat.format(value, unit)] for
    [new Intl.RelativeTimeFormat('en', { style: 'long' })]: the numeric
    form is always used; a negative value or [-0] is in the past. *)
Definition timeFormat_format (value : jsInteger) (u : unit_name) : string :=
  match value with
  | NegZero => formatNumber 0 +:+ " " +:+ unitPhrase u 0 +:+ " ago"
  | JInt z =>
      if z <? 0
      then formatNumber (- z) +:+ " " +:+ unitPhrase u (- z) +:+ " ago"
      else "in " +:+ formatNumber z +:+ " " +:+ unitPhrase u z
  end.

(** The [for ... of Object.entries(UNITS)] loop of [formatTimeSince];
    [None] stands for falling out of the loop (the function would then
    return [undefined]). *)
Fixpoint formatTimeSince_loop (entries : list (unit_name * Z))
    (diffInMs absDiff : Z) : option string :=
  match entries with
  | [] => None
  | (u, msValue) :: rest =>
      if (msValue <=? absDiff) || unit_eqb u second then
        let value := Math_round_div diffInMs msValue in
        Some (timeFormat_format value u)
      else formatTimeSince_loop rest diffInMs absDiff
  end.

(** [formatTimeSince(time)], with the reading of [Date.now()] passed
    in as [now]. *)
Definition formatTimeSince (now time : Z) : option string :=
  let diffInMs := time - now in
  let absDiff := Z.abs diffInMs in
  formatTimeSince_loop UNITS diffInMs absDiff.

(** Length of a unit in milliseconds, read off [UNITS]. *)
Definition msOf (u : unit_name) : Z :=
  match find (fun e => unit_eqb (fst e) u) UNITS with
  | Some e => snd e
  | None => 0
  end.

(** The unit the spec describes: the threshold of [u] is met (or [u] is
    the fallback, seconds) and no longer unit has its threshold met. *)
Definition largestUnitMet (absDiff : Z) (u : unit_name) : Prop :=
  (msOf u <= absDiff \/ u = second) /\
  forall u', msOf u < msOf u' -> absDiff < msOf u'.

(** [v] is [diff / ms] rounded to the nearest integer, halves up. *)
Definition roundedQuotient (diff ms v : Z) : Prop :=
  2 * v * ms - ms <= 2 * diff < 2 * v * ms + ms.

(** The long English phrase for [v] units, in the past when [diff] is
    negative and in the future otherwise. *)
Definition relativePhrase (diff v : Z) (u : unit_name) : string :=
  if diff <? 0
  then formatNumber (Z.abs v) +:+ " " +:+ unitPhrase u (Z.abs v) +:+ " ago"
  else "in " +:+ formatNumber v +:+ " " +:+ unitPhrase u v.

End RelativeTime.

(** ** Effects: exceptions and the file system

    An [async] function of the script is a computation that reads and
    changes the file system and either returns a value or throws.  Thrown
    values are [Error] objects, of which the script only ever reads
    [message]. *)

Inductive result (A : Type) : Type :=
| Ok (value : A)
| Throw (message : string).
Arguments Ok {A} value.
Arguments Throw {A} message.

Definition M (W A : Type) : Type := W -> result A * W.

Global Instance M_ret {W} : MRet (M W) := fun A a w => (Ok a, w).

Global Instance M_bind {W} : MBind (M W) := fun A B k c w =>
  match c w with
  | (Ok a, w') => k a w'
  | (Throw e, w') => (Throw e, w')
  end.

(** A call that only reads the world. *)
Definition reading {W A} (f : W -> result A) : M W A := fun w => (f w, w).

(** The calls of [fs/promises] that the script makes.  [FS] is the state
    of the file system; [access], [readFile] and [stat] leave it as it is.
    [stat] is narrowed to the one field the script reads, [mtime], as the
    milliseconds of [getTime()]. *)
Class FileSystem (FS : Type) : Type := {
  fs_access : string -> FS -> result unit;
  fs_readFile : string -> FS -> result string;
  fs_stat_mtime : string -> FS -> result Z;
  fs_mkdir_recursive : string -> M FS unit;
  fs_writeFile : string -> string -> M FS unit;
}.

(** ** What the remote host answers

    [fetch] either rejects (transport failure) or resolves to a response
    with a status; [req.json()] either rejects, or yields the decoded
    value.  The value [null] is told apart, because reading a property
    of it throws; of every other value the script only reads properties,
    and a property that is not there reads as [undefined].  A decoded
    document is taken to have the shape the script expects when the
    fields are there: [sources] an array of strings, [sourcesContent] an
    array of strings and nulls. *)

Inductive body (A : Type) : Type :=
| BadJson (message : string)
| JsonNull
| Json (value : A).
Arguments BadJson {A} message.
Arguments JsonNull {A}.
Arguments Json {A} value.

(** The message of the [TypeError] for reading property [name] of
    [null]. *)
Definition nullProperty (name : string) : string :=
  "Cannot read properties of null (reading '" +:+ name +:+ "')".

Inductive response (A : Type) : Type :=
| FetchFailed (message : string)
| Response (status : nat) (payload : body A).
Arguments FetchFailed {A} message.
Arguments Response {A} status payload.

(** [req.ok]: the status is in the range 200-299. *)
Definition ok {A} (req : response A) : bool :=
  match req with
  | Response status _ => (200 <=? status)%nat && (status <=? 299)%nat
  | FetchFailed _ => false
  end.

Record SourcemapDocument := {
  sources : option (list string);
  sourcesContent : option (list (option string));
}.

Record RevisionsDocument := {
  js : option (list string);     (* [Object.keys(res.js)], when [res.js] is there *)
  css : option (list string);
}.

(** ** Outcomes *)

(** The [previousModified] property of a file entry: not there at all,
    [null], or the [Date] taken from [fs.stat]. *)
Inductive previousModifiedValue :=
| Absent
| Null
| Mtime (t : Z).

Record FileOutcome := {
  path : string;
  isChanged : bool;
  previousModified : previousModifiedValue;
}.

Record ExtractionOutcome := {
  url : string;
  success : bool;
  files : list FileOutcome;
  error : option string;
}.

(** [results.success = false; results.error = message]. *)
Definition setFailure (results : ExtractionOutcome) (message : string)
  : ExtractionOutcome :=
  {| url := url results; success := false;
     files := files results; error := Some message |}.

(** [results.files.push(file)]. *)
Definition pushFile (results : ExtractionOutcome) (file : FileOutcome)
  : ExtractionOutcome :=
  {| url := url results; success := success results;
     files := files results ++ [file]; error := error results |}.

(** The object [results] as [downloadAndExtractSourcemap] creates it. *)
Definition newResults (url : string) : ExtractionOutcome :=
  {| url := url; success := true; files := []; error := None |}.

Definition HOST : string := "spaces.im".
Definition SANDBOX_KEY : string := "beta".
Definition CONCURRENCY : nat := 10.

(** [sourcePath.replace(/^[a-z]+:\/\/\//, '')]: the expression matches one
    or more lowercase letters at the start, followed by a colon and three
    slashes.  [matchScheme] returns what follows the match. *)
Definition matchScheme (sourcePath : string) : option string :=
  let '(letters, rest) := JsString.span JsString.isLower sourcePath in
  if negb (String.eqb letters "") && JsString.startsWith ":///" rest
  then Some (JsString.drop 4 rest) else None.

Definition cleanPath (sourcePath : string) : string :=
  match matchScheme sourcePath with
  | Some rest => rest
  | None => sourcePath
  end.

Definition localPath (sourcePath : string) : string :=
  Path.join ["."; cleanPath sourcePath].

(** ** The batch scheduler: [processInBatches]

    [Promise.all(batch.map(processor))] launches the jobs of a batch in
    order and resolves once all have settled, with the values in launch
    order; it rejects when a job rejects.  The order in which the jobs of
    a batch settle is not fixed by the program: it is given by [sched],
    which picks, among the jobs still pending (identified by their index
    in [items]), the next one to settle.  The work of a job on the world
    is taken as one step, done when the job settles.

    The scheduler records what it does in a trace: [Started] and
    [Settled] are bookkeeping for the statements below, [Progress] is the
    [console.log] line of the source. *)

Inductive event (R : Type) : Type :=
| Started (j : nat)
| Settled (j : nat) (r : result R)
| Progress (processed total : nat).
Arguments Started {R} j.
Arguments Settled {R} j r.
Arguments Progress {R} processed total.

Section Scheduler.
Context {T R W : Type}.
Variable processor : T -> M W R.
Variable sched : list nat -> nat.

(** The jobs of one batch settling one after the other.  [values] is
    the array that [Promise.all] fills by index, [failure] the first
    rejection seen. *)
Fixpoint settle (n base : nat) (pending : list (nat * T))
    (values : list (option R)) (failure : option string)
    (trace : list (event R)) (w : W)
  : list (option R) * option string * list (event R) * W :=
  match n with
  | O => (values, failure, trace, w)
  | S n' =>
      let k := (sched (fst <$> pending) `mod` length pending)%nat in
      match pending !! k with
      | None => (values, failure, trace, w)
      | Some (j, item) =>
          let '(r, w') := processor item w in
          let values' :=
            match r with
            | Ok v => <[(j - base)%nat := Some v]> values
            | Throw _ => values
            end in
          let failure' :=
            match failure, r with
            | None, Throw e => Some e
            | _, _ => failure
            end in
          settle n' base (delete k pending) values' failure'
                 (trace ++ [Settled j r]) w'
      end
  end.

Definition promiseAll (base : nat) (batch : list T) (w : W)
  : result (list R) * list (event R) * W :=
  let pending := imap (fun k item => ((base + k)%nat, item)) batch in
  let launched := (fun p => Started (fst p)) <$> pending in
  let '(values, failure, trace, w') :=
    settle (length batch) base pending
           (replicate (length batch) None) None launched w in
  match failure with
  | Some e => (Throw e, trace, w')
  | None => (Ok (omap id values), trace, w')
  end.

(** The [for (let i = 0; i < items.length; i += batchSize)] loop.
    [fuel] bounds the number of iterations; [None] means the bound was
    reached before the loop ended. *)
Fixpoint processInBatches_loop (fuel : nat) (items : list T)
    (batchSize i : nat) (results : list R) (trace : list (event R)) (w : W)
  : option (result (list R) * list (event R) * W) :=
  match fuel with
  | O => None
  | S fuel' =>
      if (i <? length items)%nat then
        let batch := take batchSize (drop i items) in
        match promiseAll i batch w with
        | (Ok batchResults, batchTrace, w') =>
            processInBatches_loop fuel' items batchSize (i + batchSize)
              (results ++ batchResults)
              (trace ++ batchTrace ++
                 [Progress (Nat.min (i + batchSize) (length items))
                           (length items)])
              w'
        | (Throw e, batchTrace, w') =>
            Some (Throw e, trace ++ batchTrace, w')
        end
      else Some (Ok results, trace, w)
  end.

Definition processInBatches (items : list T) (batchSize : nat) (w : W)
  : option (result (list R) * list (event R) * W) :=
  processInBatches_loop (S (length items)) items batchSize 0 [] [] w.

End Scheduler.

(** ** The script *)

(** [stats.changed] is a [Map]: entries are kept in insertion order and
    [set] on a key that is present replaces the value in place. *)
Fixpoint Map_set {V : Type} (key : string) (value : V)
    (entries : list (string * V)) : list (string * V) :=
  match entries with
  | [] => [(key, value)]
  | (k, v) :: rest =>
      if String.eqb k key then (key, value) :: rest
      else (k, v) :: Map_set key value rest
  end.

(** [Array.prototype.sort(compare)] is stable; [compare] returns a
    negative, zero or positive number. *)
Fixpoint sort_insert {A : Type} (compare : A -> A -> Z) (x : A)
    (sorted : list A) : list A :=
  match sorted with
  | [] => [x]
  | y :: rest =>
      if compare x y <=? 0 then x :: sorted
      else y :: sort_insert compare x rest
  end.

Definition Array_sort {A : Type} (compare : A -> A -> Z) (l : list A)
  : list A :=
  foldr (sort_insert compare) [] l.

Record Stats := {
  changed : list (string * previousModifiedValue);
  failed : list (string * option string);
}.

(** How [main] ends: [process.exit(code)], or by reaching its last line. *)
Inductive mainResult :=
| Exited (code : Z)
| Returned.

(** What [JSON.parse(links).map(...)] finds in [links.json]: the text is
    not JSON ([JSON.parse] throws a [SyntaxError]) or its value is not an
    array and has no [map] to call (a [TypeError]); or it is an array,
    given here by what the template literal prints for each element. *)
Inductive parsedLinks :=
| Unparsable (message : string)
| Links (entries : list string).

Section Program.
Context {FS : Type} {fileSystem : FileSystem FS}.

(** [crypto.createHash('md5').update(content).digest('hex')]. *)
Variable md5_hex : string -> string.
(** The answer of the host to the request for a sourcemap URL, and to
    the request for [/js/revisions.json]. *)
Variable fetch_sourcemap : string -> response SourcemapDocument.
Variable fetch_revisions : response RevisionsDocument.
(** [JSON.stringify(paths.toSorted(), null, 2)]. *)
Variable stringifySorted : list string -> string.
(** [a.localeCompare(b)]. *)
Variable localeCompare : string -> string -> Z.
(** The reading of [Date.now()] when the report is rendered. *)
Variable now : Z.
(** The order in which the jobs of a batch settle. *)
Variable sched : list nat -> nat.

Definition getFileHash (content : string) : string := md5_hex content.

Definition fileExists (filePath : string) : M FS bool := fun w =>
  match fs_access filePath w with
  | Ok _ => (Ok true, w)
  | Throw _ => (Ok false, w)
  end.

Definition throw {A} (message : string) : M FS A :=
  fun w => (Throw message, w).

Definition updateRevisions : M FS unit :=
  match fetch_revisions with
  | FetchFailed message => throw message
  | Response _ payload =>
      if negb (ok fetch_revisions) then mret tt
      else
        match payload with
        | BadJson message => throw message
        | JsonNull => throw (nullProperty "js")
        | Json res =>
            match js res, css res with
            | Some jsPaths, Some cssPaths =>
                let revisions := stringifySorted (jsPaths ++ cssPaths) in
                fs_writeFile "revisions.json" revisions
            | _, _ => throw "Cannot convert undefined or null to object"
            end
        end
  end.

(** The body of the [for] loop of [downloadAndExtractSourcemap] for an
    entry whose content is there (lines 105-137): what is pushed onto
    [results.files]. *)
Definition extractSource (sourcePath sourceContent : string)
  : M FS FileOutcome :=
  let cleanPath := cleanPath sourcePath in
  let localPath := Path.join ["."; cleanPath] in
  let newHash := getFileHash sourceContent in
  present ← fileExists localPath;
  state ←
    (if present : bool then
       existingContent ← reading (fs_readFile localPath);
       let existingHash := getFileHash existingContent in
       let isChanged := negb (String.eqb newHash existingHash) in
       if isChanged then
         mtime ← reading (fs_stat_mtime localPath);
         mret (true, Mtime mtime)
       else mret (false, Null)
     else mret (true, Null));
  let '(isChanged, previousModified) := state in
  if isChanged : bool then
    fs_mkdir_recursive (Path.dirname localPath);;
    fs_writeFile localPath sourceContent;;
    mret {| path := localPath; isChanged := true;
            previousModified := previousModified |}
  else
    mret {| path := localPath; isChanged := false;
            previousModified := Absent |}.

(** [sourcesContent[i]] when it is truthy: an index past the end, a
    [null] and the empty string all make the loop [continue]. *)
Definition contentAt (contents : list (option string)) (i : nat)
  : option string :=
  match contents !! i with
  | Some (Some content) =>
      if String.eqb content "" then None else Some content
  | _ => None
  end.

(** The loop from index [i] on; [remaining] are the sources from [i].
    [results] is the object the function fills; it is handed back also
    when an exception leaves the loop, with the entries pushed so far. *)
Fixpoint extractFrom (i : nat) (remaining : list string)
    (contents : list (option string)) (results : ExtractionOutcome) (w : FS)
  : result unit * ExtractionOutcome * FS :=
  match remaining with
  | [] => (Ok tt, results, w)
  | sourcePath :: later =>
      match contentAt contents i with
      | None => extractFrom (S i) later contents results w
      | Some sourceContent =>
          match extractSource sourcePath sourceContent w with
          | (Ok file, w') =>
              extractFrom (S i) later contents (pushFile results file) w'
          | (Throw message, w') => (Throw message, results, w')
          end
      end
  end.

(** The [try] block. *)
Definition tryBlock (results : ExtractionOutcome) (w : FS)
  : result unit * ExtractionOutcome * FS :=
  let req := fetch_sourcemap (url results) in
  match req with
  | FetchFailed message => (Throw message, results, w)
  | Response status payload =>
      if negb (ok req) then
        (Ok tt, setFailure results ("HTTP " +:+ JsString.ofNat status), w)
      else
        match payload with
        | BadJson message => (Throw message, results, w)
        | JsonNull => (Throw (nullProperty "sources"), results, w)
        | Json sourcemap =>
            match sources sourcemap, sourcesContent sourcemap with
            | Some srcs, Some contents =>
                extractFrom 0 srcs contents results w
            | _, _ =>
                (Ok tt, setFailure results "Invalid sourcemap format", w)
            end
        end
  end.

Definition downloadAndExtractSourcemap (url : string)
  : M FS ExtractionOutcome := fun w =>
  let results := newResults url in
  match tryBlock results w with
  | (Ok _, results', w') => (Ok results', w')
  | (Throw message, results', w') => (Ok (setFailure results' message), w')
  end.

(** The loop of [main] over the results (lines 171-182). *)
Definition collect (stats : Stats) (outcome : ExtractionOutcome) : Stats :=
  if negb (success outcome) then
    {| changed := changed stats;
       failed := failed stats ++ [(url outcome, error outcome)] |}
  else
    let changedFiles := filter (fun file => isChanged file) (files outcome) in
    {| changed :=
         fold_left
           (fun m file => Map_set (path file) (previousModified file) m)
           changedFiles (changed stats);
       failed := failed stats |}.

Definition aggregate (results : list ExtractionOutcome) : Stats :=
  fold_left collect results {| changed := []; failed := [] |}.

Definition timeSuffix (info : previousModifiedValue) : string :=
  match info with
  | Mtime t =>
      " (" +:+ default "undefined" (RelativeTime.formatTimeSince now t) +:+ ")"
  | _ => " (new)"
  end.

(** The array [lines] (lines 184-204). *)
Definition reportLines (stats : Stats) : list string :=
  let size := length (changed stats) in
  [ "chore: Changed " +:+ JsString.ofNat size +:+ " file(s)" ]
  ++ (if (0 <? size)%nat then
        [ JsString.nl +:+ "Changed files (" +:+ JsString.ofNat size +:+ "):";
          JsString.nl +:+ "<pre>" ]
        ++ ((fun entry => fst entry +:+ timeSuffix (snd entry)) <$>
              Array_sort (fun a b => localeCompare (fst a) (fst b))
                         (changed stats))
        ++ [ "</pre>" ]
      else [])
  ++ (if (0 <? length (failed stats))%nat then
        [ JsString.nl +:+ "Failed downloads ("
            +:+ JsString.ofNat (length (failed stats)) +:+ "):";
          JsString.nl +:+ "<pre>" ]
        ++ ((fun f => fst f +:+ " (" +:+ default "null" (snd f) +:+ ")") <$>
              failed stats)
        ++ [ "</pre>" ]
      else []).

Definition commitMessage (lines : list string) : string :=
  JsString.replaceAll
    (JsString.replaceAll (JsString.join JsString.nl lines)
                         (JsString.nl +:+ "<pre>") "")
    (JsString.nl +:+ "</pre>") "".

Definition telegramMessage (lines : list string) : string :=
  JsString.join JsString.nl (drop 1 lines).

(** Lines 209-218: leave without a report, or write the two files. *)
Definition finish (stats : Stats) : M FS mainResult :=
  let lines := reportLines stats in
  if (length (changed stats) =? 0)%nat && (length (failed stats) =? 0)%nat
  then mret (Exited 0)
  else
    fs_writeFile "commit-message.txt" (commitMessage lines);;
    fs_writeFile "telegram-message.txt" (telegramMessage lines);;
    mret Returned.

Definition sourcemapLinks (links : list string) : list string :=
  (fun link => "https://" +:+ HOST +:+ link +:+ ".map") <$> links.

(** [main], for the content [links] of [links.json].  [None] would
    mean that the batch loop does not end. *)
Definition main (links : parsedLinks) (w : FS)
  : option (result mainResult * FS) :=
  match updateRevisions w with
  | (Throw message, w1) => Some (Throw message, w1)
  | (Ok _, w1) =>
      match links with
      | Unparsable message => Some (Throw message, w1)
      | Links entries =>
          match processInBatches downloadAndExtractSourcemap sched
                  (sourcemapLinks entries) CONCURRENCY w1 with
          | None => None
          | Some (Throw message, _, w2) => Some (Throw message, w2)
          | Some (Ok results, _, w2) => Some (finish (aggregate results) w2)
          end
      end
  end.

End Program.

(** ** An in-memory file system

    A reference instance of [FileSystem] for running the script on
    concrete inputs: a tree of files and directories stored by relative
    path, with the errors Node reports when a path is of the wrong kind.
    Every write stamps the file with the current [clock]. *)

Module MemFS.

Inductive node :=
| File (content : string) (mtime : Z)
| Dir (mtime : Z).

Record t := { nodes : gmap string node; clock : Z }.

Definition empty (clock : Z) : t := {| nodes := ∅; clock := clock |}.

(** The working directory and its ancestors are always there. *)
Definition isDots (p : string) : bool :=
  forallb (fun seg => String.eqb seg "." || String.eqb seg "..")
          (JsString.split Path.slash p).

Definition lookup (p : string) (fs : t) : option node :=
  if isDots p then Some (Dir 0) else nodes fs !! p.

Definition quoted (p : string) : string := "'" +:+ p +:+ "'".

Definition access (p : string) (fs : t) : result unit :=
  match lookup p fs with
  | Some _ => Ok tt
  | None => Throw ("ENOENT: no such file or directory, access " +:+ quoted p)
  end.

Definition readFile (p : string) (fs : t) : result string :=
  match lookup p fs with
  | Some (File content _) => Ok content
  | Some (Dir _) => Throw "EISDIR: illegal operation on a directory, read"
  | None => Throw ("ENOENT: no such file or directory, open " +:+ quoted p)
  end.

Definition stat_mtime (p : string) (fs : t) : result Z :=
  match lookup p fs with
  | Some (File _ mtime) => Ok mtime
  | Some (Dir mtime) => Ok mtime
  | None => Throw ("ENOENT: no such file or directory, stat " +:+ quoted p)
  end.

(** The directory [d] and the directories above it, outermost first. *)
Definition ancestors (d : string) : list string :=
  let segments :=
    filter (fun seg => negb (String.eqb seg ""))
           (JsString.split Path.slash d) in
  (fun n => JsString.join "/" (take n segments)) <$>
    seq 1 (length segments).

Fixpoint mkdir_each (d : string) (dirs : list string) (fs : t)
  : result unit * t :=
  match dirs with
  | [] => (Ok tt, fs)
  | p :: deeper =>
      match lookup p fs with
      | Some (Dir _) => mkdir_each d deeper fs
      | Some (File _ _) =>
          if String.eqb p d
          then (Throw ("EEXIST: file already exists, mkdir " +:+ quoted d), fs)
          else (Throw ("ENOTDIR: not a directory, mkdir " +:+ quoted d), fs)
      | None =>
          mkdir_each d deeper
            {| nodes := <[p := Dir (clock fs)]> (nodes fs); clock := clock fs |}
      end
  end.

Definition mkdir_recursive (d : string) (fs : t) : result unit * t :=
  mkdir_each d (ancestors d) fs.

Definition writeFile (p content : string) (fs : t) : result unit * t :=
  match lookup p fs with
  | Some (Dir _) =>
      (Throw ("EISDIR: illegal operation on a directory, open " +:+ quoted p), fs)
  | _ =>
      match lookup (Path.dirname p) fs with
      | Some (Dir _) =>
          (Ok tt, {| nodes := <[p := File content (clock fs)]> (nodes fs);
                     clock := clock fs |})
      | Some (File _ _) =>
          (Throw ("ENOTDIR: not a directory, open " +:+ quoted p), fs)
      | None =>
          (Throw ("ENOENT: no such file or directory, open " +:+ quoted p), fs)
      end
  end.

Global Instance fileSystem : FileSystem t := {|
  fs_access := access;
  fs_readFile := readFile;
  fs_stat_mtime := stat_mtime;
  fs_mkdir_recursive := mkdir_recursive;
  fs_writeFile := writeFile;
|}.

(** The files and directories of the tree, by path. *)
Definition listing (fs : t) : list (string * node) :=
  map_to_list (nodes fs).

End MemFS.

(** ** Vocabulary of the statements *)

(** The events of jobs that settled with a value, in settling order. *)
Definition doneEvents {R : Type} (done : list (nat * R)) : list (event R) :=
  (fun p => Settled (fst p) (Ok (snd p))) <$> done.

(** The jobs of [done] ran one after the other, in this order, taking
    the world from [w] to [w']. *)
Inductive ran {T R W : Type} (processor : T -> M W R)
  : W -> list (nat * R) -> W -> Prop :=
| ran_none (w : W) : ran processor w [] w
| ran_next (w w1 w' : W) (j : nat) (item : T) (v : R)
    (rest : list (nat * R)) :
    processor item w = (Ok v, w1) ->
    ran processor w1 rest w' ->
    ran processor w ((j, v) :: rest) w'.

(** A trace made of rounds, from job index [i] on, over [total] jobs:
    each round launches the next [batchSize] jobs (fewer in the last
    round) in input order, then exactly these jobs settle, in any order,
    then the progress line is printed; the next round starts after that. *)
Inductive rounds {R : Type} (batchSize total : nat)
  : nat -> list (event R) -> Prop :=
| rounds_done (i : nat) :
    (total <= i)%nat -> rounds batchSize total i []
| rounds_next (i : nat) (done : list (nat * R)) (later : list (event R)) :
    (i < total)%nat ->
    Permutation (fst <$> done) (seq i (Nat.min batchSize (total - i))) ->
    rounds batchSize total (i + batchSize) later ->
    rounds batchSize total i
      ((Started <$> seq i (Nat.min batchSize (total - i)))
       ++ doneEvents done
       ++ [Progress (Nat.min (i + batchSize) total) total]
       ++ later).

(** The barrier between chunks: when job [j'] is launched, every job of
    an earlier chunk has settled. *)
Definition barrier {R : Type} (batchSize total : nat)
    (trace : list (event R)) : Prop :=
  forall before j' after,
    trace = before ++ Started j' :: after ->
    forall j, (j < total)%nat -> (j / batchSize < j' / batchSize)%nat ->
    exists r, Settled j r ∈ before.

(** How the local file is found when an entry is written: it is not
    there, or it is there with other content and modification time [t]. *)
Definition foundChanged {FS : Type} {fileSystem : FileSystem FS}
    (md5_hex : string -> string) (p content : string) (w : FS)
    (previous : previousModifiedValue) : Prop :=
  ((exists e, fs_access p w = Throw e) /\ previous = Null)
  \/ (fs_access p w = Ok tt /\
      exists old t, fs_readFile p w = Ok old /\
                    md5_hex old <> md5_hex content /\
                    fs_stat_mtime p w = Ok t /\ previous = Mtime t).

(** The file system as it is when the loop of
    [downloadAndExtractSourcemap] reaches entry [k]. *)
Definition worldBefore {FS : Type} {fileSystem : FileSystem FS}
    (md5_hex : string -> string) (srcs : list string)
    (contents : list (option string)) (k : nat)
    (results : ExtractionOutcome) (w : FS) : FS :=
  snd (extractFrom md5_hex 0 (take k srcs) contents results w).

(** Both block markers taken out of a text, as [main] does for the
    commit message. *)
Definition stripMarkers (text : string) : string :=
  JsString.replaceAll
    (JsString.replaceAll text (JsString.nl +:+ "<pre>") "")
    (JsString.nl +:+ "</pre>") "".

(** An outcome as the aggregator sees it: everything but the [files] of
    an outcome that failed. *)
Definition sameForAggregator (a b : ExtractionOutcome) : Prop :=
  success a = success b /\ url a = url b /\ error a = error b /\
  (success a = true -> files a = files b).

(** Every path of the change set was reported as changed by a job that
    succeeded. *)
Definition fromSuccess (results : list ExtractionOutcome) (p : string) : Prop :=
  exists outcome file,
    outcome ∈ results /\ success outcome = true /\
    file ∈ files outcome /\ isChanged file = true /\ path file = p.

(** ** Concrete runs

    Inputs for running the script: stand-ins for the parameters that the
    runs below do not depend on, and the remote hosts of the scenarios. *)

Module Scenario.

(** Stand-ins: the digest is the content itself, names compare by code
    unit, jobs settle in launch order. *)
Definition digest (content : string) : string := content.

Definition compareNames (a b : string) : Z :=
  match String.compare a b with
  | Eq => 0
  | Lt => -1
  | Gt => 1
  end.

Definition inOrder (pending : list nat) : nat := 0%nat.

Definition noStringify (paths : list string) : string := "[]".

(** The host does not serve [revisions.json]. *)
Definition noRevisions : response RevisionsDocument :=
  Response 404 (BadJson "Unexpected token").

(** A host that serves one sourcemap, at [https://spaces.im/foo.map]. *)
Definition serving (doc : SourcemapDocument) (url : string)
  : response SourcemapDocument :=
  if String.eqb url "https://spaces.im/foo.map"
  then Response 200 (Json doc)
  else Response 404 (BadJson "Unexpected token").

(** The sourcemap of the spec's scenario. *)
Definition appMap : SourcemapDocument :=
  {| sources := Some ["webpack:///src/app.js"];
     sourcesContent := Some [Some "const x=1;"] |}.

(** The same source listed twice, with different contents. *)
Definition twiceMap : SourcemapDocument :=
  {| sources := Some ["webpack:///src/app.js"; "webpack:///src/app.js"];
     sourcesContent := Some [Some "const x=1;"; Some "const x=2;"] |}.

(** A file and then a path below it: the second entry cannot be written. *)
Definition clashMap : SourcemapDocument :=
  {| sources := Some ["webpack:///a"; "webpack:///a/b.js"];
     sourcesContent := Some [Some "one"; Some "two"] |}.

(** A source that is mirrored below [commit-message.txt]. *)
Definition shadowMap : SourcemapDocument :=
  {| sources := Some ["webpack:///commit-message.txt/a.js"];
     sourcesContent := Some [Some "x"] |}.

(** A mirror that holds [src/app.js] with the content of [appMap],
    written at time [mtime]. *)
Definition mirrored (mtime clock : Z) : MemFS.t :=
  {| MemFS.nodes :=
       <["src/app.js" := MemFS.File "const x=1;" mtime]>
         (<["src" := MemFS.Dir mtime]> ∅);
     MemFS.clock := clock |}.

(** The script on [links.json = ["/foo"]] against a host serving [doc]. *)
Definition runFoo (doc : SourcemapDocument) (w : MemFS.t)
  : option (result mainResult * MemFS.t) :=
  main digest (serving doc) noRevisions noStringify compareNames 0 inOrder
       (Links ["/foo"]) w.

Definition jobFoo (doc : SourcemapDocument) (w : MemFS.t)
  : result ExtractionOutcome * MemFS.t :=
  downloadAndExtractSourcemap digest (serving doc)
    "https://spaces.im/foo.map" w.

(** A job that hands its item back, and a settling order that always
    takes the job launched last. *)
Definition echo (item : string) : M unit string := fun w => (Ok item, w).

Definition lastFirst (pending : list nat) : nat :=
  Nat.pred (length pending).

End Scenario.


(** The units as the claim about relative times lists them, from the
    largest on, and their lengths in milliseconds: a year of 365 days,
    a twelfth of that year, and the week, day, hour, minute and second
    of the clock. *)
Definition unitRank (u : RelativeTime.unit_name) : nat :=
  match u with
  | RelativeTime.year => 0
  | RelativeTime.month => 1
  | RelativeTime.week => 2
  | RelativeTime.day => 3
  | RelativeTime.hour => 4
  | RelativeTime.minute => 5
  | RelativeTime.second => 6
  end%nat.

Definition unitLength (u : RelativeTime.unit_name) : Z :=
  match u with
  | RelativeTime.year => 31536000000
  | RelativeTime.month => 2628000000
  | RelativeTime.week => 604800000
  | RelativeTime.day => 86400000
  | RelativeTime.hour => 3600000
  | RelativeTime.minute => 60000
  | RelativeTime.second => 1000
  end.

(** ** Vocabulary of the further properties *)

(** The entries the loop of [downloadAndExtractSourcemap] works on, from
    index [i]: each source whose content is there, with that content. *)
Fixpoint entriesFrom (i : nat) (remaining : list string)
    (contents : list (option string)) : list (string * string) :=
  match remaining with
  | [] => []
  | sourcePath :: later =>
      match contentAt contents i with
      | Some content => (sourcePath, content) :: entriesFrom (S i) later contents
      | None => entriesFrom (S i) later contents
      end
  end.

(** The local path of an entry. *)
Definition entryPath (entry : string * string) : string :=
  localPath (fst entry).

(** What a file system has to guarantee for a second run to find what
    the first one wrote: a file that was written reads back with that
    content, and writing a file or creating directories leaves the other
    readable files readable with the content they had. *)
Class LawfulFileSystem (FS : Type) {fileSystem : FileSystem FS} : Prop := {
  write_then_read : forall p content w w',
    fs_writeFile p content w = (Ok tt, w') ->
    fs_access p w' = Ok tt /\ fs_readFile p w' = Ok content;
  write_keeps_others : forall p content w w' q old,
    fs_writeFile p content w = (Ok tt, w') -> q <> p ->
    fs_access q w = Ok tt -> fs_readFile q w = Ok old ->
    fs_access q w' = Ok tt /\ fs_readFile q w' = Ok old;
  mkdir_keeps_files : forall d w w' q old,
    fs_mkdir_recursive d w = (Ok tt, w') ->
    fs_access q w = Ok tt -> fs_readFile q w = Ok old ->
    fs_access q w' = Ok tt /\ fs_readFile q w' = Ok old;
}.

(** The local file at [p] is there and has the digest of [content]. *)
Definition mirrors {FS : Type} {fileSystem : FileSystem FS}
    (md5_hex : string -> string) (p content : string) (w : FS) : Prop :=
  fs_access p w = Ok tt /\
  exists old, fs_readFile p w = Ok old /\ md5_hex old = md5_hex content.

(** The changed files that reach the change set, in the order in which
    [main] goes through them. *)
Definition changedFiles (results : list ExtractionOutcome) : list FileOutcome :=
  flat_map (fun outcome =>
              if success outcome
              then filter (fun file => isChanged file) (files outcome)
              else [])
           results.

(** The line of the report for an entry of the change set, and for a
    failure. *)
Definition changedLine (now : Z) (entry : string * previousModifiedValue)
  : string :=
  fst entry +:+ timeSuffix now (snd entry).

(** The largest count [formatTimeSince] prints with a unit (none for
    years). *)
Definition largestCount (u : RelativeTime.unit_name) : option Z :=
  match u with
  | RelativeTime.year => None
  | RelativeTime.month => Some 12
  | RelativeTime.week => Some 4
  | RelativeTime.day => Some 7
  | RelativeTime.hour => Some 24
  | RelativeTime.minute => Some 60
  | RelativeTime.second => Some 60
  end.

(** A job that rejects on the item [bad] and hands any other item
    back. *)
Definition failingOn (bad item : string) : M unit string := fun w =>
  if String.eqb item bad then (Throw ("cannot process " +:+ item), w)
  else (Ok item, w).

(** The request for [revisions.json] is rejected (no connection). *)
Definition unreachable : response RevisionsDocument :=
  FetchFailed "fetch failed".

(** A sourcemap with two sources that have content and one that has
    none. *)
Definition pairMap : SourcemapDocument :=
  {| sources := Some ["webpack:///src/app.js"; "webpack:///src/empty.js";
                      "webpack:///src/lib/util.js"];
     sourcesContent := Some [Some "const x=1;"; None; Some "export {};"] |}.

(** A working directory that holds [links.json] and no mirror yet. *)
Definition besideLinks : MemFS.t :=
  {| MemFS.nodes := <["links.json" := MemFS.File "[]" 0]> ∅;
     MemFS.clock := 1 |}.

(** * Properties *)

(** ** Source paths *)

Section SourcePaths.

Lemma span_app (p : ascii -> bool) (a b : string) :
  forallb p (String.list_ascii_of_string a) = true ->
  match b with String c _ => p c = false | EmptyString => True end ->
  JsString.span p (a +:+ b) = (a, b).
Proof.
  induction a as [|c a IH]; simpl; intros Ha Hb.
  - destruct b as [|c b]; [reflexivity|]. simpl. now rewrite Hb.
  - apply andb_prop in Ha as [Hc Ha]. rewrite Hc.
    now rewrite (IH Ha Hb).
Qed.

Lemma span_split (p : ascii -> bool) (s a b : string) :
  JsString.span p s = (a, b) ->
  s = a +:+ b /\ forallb p (String.list_ascii_of_string a) = true.
Proof.
  revert a b. induction s as [|c s IH]; simpl; intros a b E.
  - now inversion E.
  - destruct (p c) eqn:Hc.
    + destruct (JsString.span p s) as [a' b'] eqn:E'.
      inversion E; subst. destruct (IH a' b eq_refl) as [-> Ha'].
      split; [reflexivity|]. simpl. now rewrite Hc.
    + inversion E; subst. now split.
Qed.

Lemma startsWith_drop (p s : string) :
  JsString.startsWith p s = true ->
  s = p +:+ JsString.drop (String.length p) s.
Proof.
  revert s. induction p as [|c p IH]; intros s H; [reflexivity|].
  destruct s as [|d s]; simpl in H; [discriminate|].
  apply andb_prop in H as [Hc H]. apply Ascii.eqb_eq in Hc as ->.
  change (String d s = String d (p +:+ JsString.drop (String.length p) s)).
  f_equal. now apply IH.
Qed.

Lemma matchScheme_three_slashes (scheme rest : string) :
  scheme <> "" -> JsString.allLower scheme = true ->
  matchScheme (scheme +:+ ":///" +:+ rest) = Some rest.
Proof.
  intros Hne Hlow. unfold matchScheme.
  rewrite (span_app JsString.isLower scheme (":///" +:+ rest) Hlow);
    [|reflexivity].
  destruct scheme; [congruence|]. reflexivity.
Qed.

Lemma matchScheme_inv (sourcePath rest : string) :
  matchScheme sourcePath = Some rest ->
  exists scheme, scheme <> "" /\ JsString.allLower scheme = true /\
                 sourcePath = scheme +:+ ":///" +:+ rest.
Proof.
  unfold matchScheme.
  destruct (JsString.span JsString.isLower sourcePath) as [letters tail] eqn:E.
  apply span_split in E as [-> Hlow].
  destruct (String.eqb_spec letters "") as [|Hne]; cbn [negb andb];
    [discriminate|].
  destruct (JsString.startsWith ":///" tail) eqn:Hpre; [|discriminate].
  intros [= <-]. exists letters. repeat split; try assumption.
  f_equal. now apply startsWith_drop in Hpre.
Qed.

End SourcePaths.

(** ** Relative time *)

Section RelativeTimeProperties.
Import RelativeTime.

Lemma Math_round_div_spec (diff ms : Z) :
  0 < ms ->
  exists v, roundedQuotient diff ms v /\
    forall u, timeFormat_format (Math_round_div diff ms) u
              = relativePhrase diff v u.
Proof.
  intros Hms. exists ((2 * diff + ms) / (2 * ms)).
  set (v := (2 * diff + ms) / (2 * ms)).
  assert (Hdiv : 2 * ms * v <= 2 * diff + ms < 2 * ms * v + 2 * ms).
  { pose proof (Z.div_mod (2 * diff + ms) (2 * ms) ltac:(lia)) as E.
    pose proof (Z.mod_pos_bound (2 * diff + ms) (2 * ms) ltac:(lia)) as B.
    fold v in E. lia. }
  split; [unfold roundedQuotient; lia|].
  intros u. unfold Math_round_div, relativePhrase. fold v.
  destruct (Z.eqb_spec v 0) as [Hv|Hv]; cbn [andb].
  - destruct (Z.ltb_spec diff 0); cbn [timeFormat_format]; rewrite Hv.
    + reflexivity.
    + reflexivity.
  - cbn [timeFormat_format].
    destruct (Z.ltb_spec v 0) as [Hneg|Hpos];
      destruct (Z.ltb_spec diff 0) as [Hd|Hd]; try nia.
    + now rewrite Z.abs_neq by lia.
    + reflexivity.
Qed.

Lemma formatTimeSince_loop_spec (diff : Z) :
  exists u,
    largestUnitMet (Z.abs diff) u /\
    formatTimeSince_loop UNITS diff (Z.abs diff)
    = Some (timeFormat_format (Math_round_div diff (msOf u)) u).
Proof.
  set (a := Z.abs diff).
  assert (Hu : forall u, msOf u =
    match u with
    | year => 31536000000 | month => 2628000000 | week => 604800000
    | day => 86400000 | hour => 3600000 | minute => 60000
    | second => 1000
    end) by (intros []; reflexivity).
  change UNITS with
    [ (year, 31536000000); (month, 2628000000); (week, 604800000);
      (day, 86400000); (hour, 3600000); (minute, 60000); (second, 1000) ].
  cbn [formatTimeSince_loop unit_eqb orb].
  repeat
    match goal with
    | |- context [?m <=? a] =>
        destruct (Z.leb_spec m a); cbn [orb]
    end;
    [ exists year | exists month | exists week | exists day
    | exists hour | exists minute | exists second | exists second ];
    (split; [ split; [ rewrite Hu; first [ left; lia | now right ]
                     | intros []; rewrite !Hu; lia ]
            | rewrite Hu; reflexivity ]).
Qed.

End RelativeTimeProperties.

(** ** One source entry *)

Section EntryProperties.
Context {FS : Type} {fileSystem : FileSystem FS}.
Variable md5_hex : string -> string.

Ltac run_monad :=
  unfold mbind, M_bind, mret, M_ret, reading, fileExists, throw in *.

(** Every way [extractSource] can go. *)
Lemma extractSource_inv (sourcePath content : string) (w w' : FS)
    (r : result FileOutcome) :
  extractSource md5_hex sourcePath content w = (r, w') ->
  let p := localPath sourcePath in
  (fs_access p w = Ok tt /\
   exists old, fs_readFile p w = Ok old /\ md5_hex old = md5_hex content /\
     r = Ok {| path := p; isChanged := false; previousModified := Absent |} /\
     w' = w)
  \/ (fs_access p w = Ok tt /\
      exists e, fs_readFile p w = Throw e /\ r = Throw e /\ w' = w)
  \/ (fs_access p w = Ok tt /\
      exists old e, fs_readFile p w = Ok old /\
        md5_hex old <> md5_hex content /\
        fs_stat_mtime p w = Throw e /\ r = Throw e /\ w' = w)
  \/ (exists previous, foundChanged md5_hex p content w previous /\
        ((exists e, fs_mkdir_recursive (Path.dirname p) w = (Throw e, w') /\
                    r = Throw e)
         \/ (exists w1, fs_mkdir_recursive (Path.dirname p) w = (Ok tt, w1) /\
              ((exists e, fs_writeFile p content w1 = (Throw e, w') /\
                          r = Throw e)
               \/ (fs_writeFile p content w1 = (Ok tt, w') /\
                   r = Ok {| path := p; isChanged := true;
                             previousModified := previous |}))))).
Proof.
  unfold extractSource, localPath, getFileHash, foundChanged. run_monad.
  set (p := Path.join ["."; cleanPath sourcePath]).
  intros E. cbv zeta.
  assert (Hwrite : forall previous,
    (let '(r0, w0) := fs_mkdir_recursive (Path.dirname p) w in
     match r0 with
     | Ok _ =>
         match fs_writeFile p content w0 with
         | (Ok _, w1) =>
             (Ok {| path := p; isChanged := true;
                    previousModified := previous |}, w1)
         | (Throw e, w1) => (Throw e, w1)
         end
     | Throw e => (Throw e, w0)
     end) = (r, w') ->
    (exists e, fs_mkdir_recursive (Path.dirname p) w = (Throw e, w') /\
               r = Throw e)
    \/ (exists w1, fs_mkdir_recursive (Path.dirname p) w = (Ok tt, w1) /\
          ((exists e, fs_writeFile p content w1 = (Throw e, w') /\ r = Throw e)
           \/ (fs_writeFile p content w1 = (Ok tt, w') /\
               r = Ok {| path := p; isChanged := true;
                         previousModified := previous |})))).
  { intros previous. destruct (fs_mkdir_recursive (Path.dirname p) w)
      as [[[]|e] w0] eqn:Emk.
    - destruct (fs_writeFile p content w0) as [[[]|e] w1] eqn:Ewr;
        intros [= <- <-]; right; exists w0; split; eauto.
    - intros [= <- <-]. left. eauto. }
  destruct (fs_access p w) as [[]|e0] eqn:Eacc.
  - destruct (fs_readFile p w) as [old|e] eqn:Erd.
    + destruct (String.eqb_spec (md5_hex content) (md5_hex old)) as [Hh|Hh];
        cbn [negb] in E.
      * left. split; [reflexivity|]. exists old.
        injection E as <- <-. repeat split; congruence.
      * destruct (fs_stat_mtime p w) as [t|e] eqn:Est.
        -- right; right; right. exists (Mtime t). split.
           ++ right. split; [reflexivity|]. exists old, t.
              repeat split; congruence.
           ++ apply Hwrite. exact E.
        -- right; right; left. split; [reflexivity|]. exists old, e.
           injection E as <- <-. repeat split; congruence.
    + right; left. split; [reflexivity|]. exists e.
      injection E as <- <-. repeat split; congruence.
  - right; right; right. exists Null. split.
    + left. split; [eauto|reflexivity].
    + apply Hwrite. exact E.
Qed.

Lemma extractSource_path (sourcePath content : string) (w w' : FS)
    (file : FileOutcome) :
  extractSource md5_hex sourcePath content w = (Ok file, w') ->
  path file = Path.join ["."; cleanPath sourcePath].
Proof.
  intros E. apply extractSource_inv in E. cbv zeta in E.
  fold (localPath sourcePath).
  destruct E as [(_ & old & _ & _ & [= ->] & _)
               |[(_ & e & _ & [=] & _)
               |[(_ & old & e & _ & _ & _ & [=] & _)
               |(previous & _ & [(e & _ & [=])
                                |(w1 & _ & [(e & _ & [=])|(_ & [= ->])])])]]];
    reflexivity.
Qed.

(** The entry is there with the same digest: nothing is touched. *)
Lemma extractSource_unchanged (sourcePath content old : string) (w : FS) :
  fs_access (localPath sourcePath) w = Ok tt ->
  fs_readFile (localPath sourcePath) w = Ok old ->
  md5_hex old = md5_hex content ->
  extractSource md5_hex sourcePath content w
  = (Ok {| path := localPath sourcePath; isChanged := false;
           previousModified := Absent |}, w).
Proof.
  intros Hacc Hrd Hh. unfold extractSource, getFileHash. run_monad.
  fold (localPath sourcePath). rewrite Hacc, Hrd, Hh.
  now rewrite String.eqb_refl.
Qed.

End EntryProperties.

(** ** The batch scheduler *)

Section SchedulerProperties.
Context {T R W : Type}.
Variable processor : T -> M W R.
Variable sched : list nat -> nat.
Hypothesis processor_returns :
  forall item w, exists v w', processor item w = (Ok v, w').

Lemma settle_spec (base n : nat) :
  forall pending values failure trace w,
    length pending = n ->
    NoDup (fst <$> pending) ->
    (forall j, j ∈ fst <$> pending ->
               (base <= j < base + length values)%nat) ->
    exists done values' w',
      settle processor sched n base pending values failure trace w
      = (values', failure, trace ++ doneEvents done, w')
      /\ length values' = length values
      /\ Permutation (fst <$> done) (fst <$> pending)
      /\ (forall j v, (j, v) ∈ done ->
            values' !! (j - base)%nat = Some (Some v) /\
            exists item w0 w1,
              (j, item) ∈ pending /\ processor item w0 = (Ok v, w1))
      /\ (forall k, (forall j, j ∈ fst <$> pending -> (j - base)%nat <> k) ->
            values' !! k = values !! k)
      /\ ran processor w done w'.
Proof.
  induction n as [|n IH]; intros pending values failure trace w Hlen Hnd Hrange.
  - destruct pending; [|discriminate]. exists [], values, w.
    cbn [settle]. unfold doneEvents. rewrite app_nil_r.
    split; [reflexivity|]. split; [reflexivity|]. split; [reflexivity|].
    split; [intros j v Hin; inversion Hin|].
    split; [reflexivity|constructor].
  - cbn [settle].
    set (k := (sched (fst <$> pending) `mod` length pending)%nat).
    assert (Hk : (k < length pending)%nat)
      by (apply Nat.mod_upper_bound; lia).
    destruct (lookup_lt_is_Some_2 pending k Hk) as [[j item] Hjk].
    rewrite Hjk.
    destruct (processor_returns item w) as (v & w1 & Hrun). rewrite Hrun.
    assert (Hj : j ∈ fst <$> pending).
    { apply list_elem_of_fmap. exists (j, item). split; [reflexivity|].
      eapply list_elem_of_lookup_2; eassumption. }
    assert (Hsub : forall x, x ∈ fst <$> delete k pending ->
                             x ∈ fst <$> pending).
    { intros x Hx. rewrite list_fmap_delete in Hx.
      eapply list_elem_of_delete_inv; eassumption. }
    assert (Hfresh : j ∉ fst <$> delete k pending).
    { assert (Hp : Permutation (fst <$> pending)
                     (j :: (fst <$> delete k pending))).
      { rewrite list_fmap_delete. apply delete_Permutation.
        rewrite list_lookup_fmap, Hjk. reflexivity. }
      rewrite Hp in Hnd. apply NoDup_cons in Hnd. tauto. }
    destruct (IH (delete k pending) (<[(j - base)%nat := Some v]> values)
                 failure (trace ++ [Settled j (Ok v)]) w1)
      as (done & values' & w' & E & Hl & Hperm & Hdone & Hframe & Hran).
    + rewrite length_delete by eauto. lia.
    + rewrite list_fmap_delete.
      eapply sublist_NoDup; [exact Hnd|apply sublist_delete].
    + intros x Hx. rewrite length_insert. apply Hrange, Hsub, Hx.
    + exists ((j, v) :: done), values', w'.
      split; [|split; [|split; [|split; [|split]]]].
      * destruct failure; rewrite E; unfold doneEvents;
          rewrite fmap_cons, <- app_assoc; reflexivity.
      * now rewrite Hl, length_insert.
      * rewrite fmap_cons. cbn [fst]. rewrite Hperm, list_fmap_delete.
        symmetry. apply delete_Permutation.
        rewrite list_lookup_fmap, Hjk. reflexivity.
      * intros j0 v0 Hin. apply elem_of_cons in Hin as [[= -> ->]|Hin].
        -- split.
           ++ rewrite Hframe.
              ** apply list_lookup_insert_eq.
                 pose proof (Hrange j Hj). lia.
              ** intros x Hx Heq.
                 assert (x = j).
                 { pose proof (Hrange j Hj).
                   pose proof (Hrange x (Hsub x Hx)). lia. }
                 subst x. contradiction.
           ++ exists item, w, w1. split; [|assumption].
              eapply list_elem_of_lookup_2; eassumption.
        -- destruct (Hdone j0 v0 Hin) as (Hv & item0 & w0 & w0' & Hi & Hr).
           split; [assumption|]. exists item0, w0, w0'.
           split; [|assumption].
           eapply list_elem_of_delete_inv; eassumption.
      * intros k0 Hk0. rewrite Hframe.
        -- apply list_lookup_insert_ne. apply Hk0, Hj.
        -- intros x Hx. apply Hk0, Hsub, Hx.
      * econstructor; eassumption.
Qed.

Lemma all_Some_fmap {A : Type} (l : list (option A)) :
  (forall k, (k < length l)%nat -> exists v, l !! k = Some (Some v)) ->
  exists vs, l = Some <$> vs.
Proof.
  induction l as [|x l IH]; intros H; [now exists []|].
  destruct (H 0%nat) as [v Hv]; [cbn; lia|]. injection Hv as ->.
  destruct IH as [vs ->].
  { intros k Hk. apply (H (S k)). cbn. lia. }
  now exists (v :: vs).
Qed.

Lemma omap_id_fmap_Some {A : Type} (vs : list A) :
  omap id (Some <$> vs) = vs.
Proof. induction vs as [|v vs IH]; [reflexivity|]. cbn. now f_equal. Qed.

Lemma promiseAll_spec (base : nat) (batch : list T) (w : W) :
  exists done values w',
    promiseAll processor sched base batch w
    = (Ok values,
       (Started <$> seq base (length batch)) ++ doneEvents done, w')
    /\ length values = length batch
    /\ Permutation (fst <$> done) (seq base (length batch))
    /\ (forall k item, batch !! k = Some item ->
         exists v w0 w1,
           values !! k = Some v /\ processor item w0 = (Ok v, w1) /\
           ((base + k)%nat, v) ∈ done)
    /\ (forall j v, (j, v) ∈ done -> v ∈ values)
    /\ ran processor w done w'.
Proof.
  unfold promiseAll.
  set (pending := imap (fun k item => ((base + k)%nat, item)) batch).
  assert (Hfst : fst <$> pending = seq base (length batch)).
  { unfold pending. rewrite fmap_imap.
    rewrite <- (list_fmap_id (seq base (length batch))).
    rewrite <- (imap_seq batch id base). reflexivity. }
  assert (Hlaunch : (fun p : nat * T => @Started R (fst p)) <$> pending
                    = Started <$> seq base (length batch)).
  { rewrite <- Hfst, <- list_fmap_compose. reflexivity. }
  destruct (settle_spec base (length batch) pending
              (replicate (length batch) None) None
              ((fun p => Started (fst p)) <$> pending) w)
    as (done & values & w' & E & Hl & Hperm & Hdone & _ & Hran).
  - unfold pending. apply length_imap.
  - rewrite Hfst. apply NoDup_seq.
  - intros j. rewrite Hfst, length_replicate, elem_of_seq. lia.
  - rewrite E, Hlaunch. rewrite length_replicate in Hl. rewrite Hfst in Hperm.
    assert (Hslot : forall k item, batch !! k = Some item ->
              exists v w0 w1, values !! k = Some (Some v) /\
                processor item w0 = (Ok v, w1) /\ ((base + k)%nat, v) ∈ done).
    { intros k item Hk.
      assert (Hin : (base + k)%nat ∈ fst <$> done).
      { rewrite Hperm. apply elem_of_seq.
        apply lookup_lt_Some in Hk. lia. }
      apply list_elem_of_fmap in Hin as ([j v] & Hj & Hin).
      cbn in Hj. subst j.
      destruct (Hdone _ _ Hin) as (Hv & item' & w0 & w1 & Hp & Hr).
      replace (base + k - base)%nat with k in Hv by lia.
      apply list_elem_of_lookup_1 in Hp as [k' Hp].
      unfold pending in Hp. rewrite list_lookup_imap in Hp.
      destruct (batch !! k') as [x|] eqn:Hk'; [|discriminate].
      injection Hp as Hidx ->.
      assert (k' = k) by lia. subst k'.
      assert (item' = item) by congruence. subst item'.
      exists v, w0, w1. auto. }
    destruct (all_Some_fmap values) as [vs ->].
    { intros k Hk. rewrite Hl in Hk.
      destruct (lookup_lt_is_Some_2 batch k Hk) as [item Hitem].
      destruct (Hslot k item Hitem) as (v & _ & _ & Hv & _). eauto. }
    exists done, vs, w'. rewrite omap_id_fmap_Some.
    rewrite length_fmap in Hl.
    split; [reflexivity|]. split; [assumption|]. split; [assumption|].
    split; [|split; [|exact Hran]].
    + intros k item Hk.
      destruct (Hslot k item Hk) as (v & w0 & w1 & Hv & Hr & Hin).
      exists v, w0, w1. rewrite list_lookup_fmap in Hv.
      destruct (vs !! k); [|discriminate]. injection Hv as ->. auto.
    + intros j v Hin. destruct (Hdone j v Hin) as (Hv & _).
      rewrite list_lookup_fmap in Hv.
      destruct (vs !! (j - base)%nat) as [v'|] eqn:Hj; [|discriminate].
      injection Hv as ->. eapply list_elem_of_lookup_2. exact Hj.
Qed.

Lemma processInBatches_loop_spec (items : list T) (batchSize : nat) :
  (0 < batchSize)%nat ->
  forall fuel i results trace w,
    (length items - i < fuel)%nat ->
    exists more later w',
      processInBatches_loop processor sched fuel items batchSize i
                            results trace w
      = Some (Ok (results ++ more), trace ++ later, w')
      /\ length more = (length items - i)%nat
      /\ rounds batchSize (length items) i later
      /\ forall k item, items !! (i + k)%nat = Some item ->
           exists v w0 w1,
             more !! k = Some v /\ processor item w0 = (Ok v, w1) /\
             Settled (i + k)%nat (Ok v) ∈ later.
Proof.
  intros Hbs. induction fuel as [|fuel IH]; intros i results trace w Hfuel;
    [lia|].
  cbn [processInBatches_loop].
  destruct (Nat.ltb_spec i (length items)) as [Hi|Hi].
  - set (batch := take batchSize (drop i items)).
    assert (Hlen : length batch = Nat.min batchSize (length items - i)).
    { unfold batch. now rewrite length_take, length_drop. }
    destruct (promiseAll_spec i batch w)
      as (done & values & w1 & E & Hl & Hperm & Hvals & _ & _).
    rewrite E.
    destruct (IH (i + batchSize)%nat (results ++ values)
                 (trace ++ ((Started <$> seq i (length batch))
                            ++ doneEvents done)
                        ++ [Progress (Nat.min (i + batchSize) (length items))
                                     (length items)]) w1)
      as (more & later & w' & E' & Hm & Hr & Hres); [lia|].
    exists (values ++ more),
      ((Started <$> seq i (length batch)) ++ doneEvents done
       ++ [Progress (Nat.min (i + batchSize) (length items)) (length items)]
       ++ later), w'.
    split; [|split; [|split]].
    + rewrite E'. repeat rewrite <- app_assoc. reflexivity.
    + rewrite length_app, Hm, Hl, Hlen. lia.
    + rewrite Hlen. apply rounds_next; [assumption| |assumption].
      now rewrite <- Hlen.
    + intros k item Hk.
      destruct (Nat.lt_ge_cases k (length batch)) as [Hkb|Hkb].
      * assert (Hb : batch !! k = Some item).
        { unfold batch. rewrite lookup_take_lt by lia.
          now rewrite lookup_drop. }
        destruct (Hvals k item Hb) as (v & w0 & w0' & Hv & Hrun & Hin).
        exists v, w0, w0'. split; [|split; [assumption|]].
        -- rewrite lookup_app_l by lia. assumption.
        -- apply elem_of_app. right. apply elem_of_app. left.
           unfold doneEvents. apply list_elem_of_fmap.
           exists ((i + k)%nat, v). split; [reflexivity|assumption].
      * assert (Hfull : length batch = batchSize).
        { apply lookup_lt_Some in Hk. lia. }
        destruct (Hres (k - batchSize)%nat item)
          as (v & w0 & w0' & Hv & Hrun & Hin).
        { rewrite <- Hk. f_equal. lia. }
        exists v, w0, w0'. split; [|split; [assumption|]].
        -- rewrite lookup_app_r by lia. rewrite Hl, Hfull. assumption.
        -- apply elem_of_app. right. apply elem_of_app. right.
           apply elem_of_app. right.
           replace (i + k)%nat with (i + batchSize + (k - batchSize))%nat
             by lia.
           assumption.
  - exists [], [], w. rewrite !app_nil_r.
    split; [reflexivity|]. split; [cbn; lia|]. split.
    + now apply rounds_done.
    + intros k item Hk. apply lookup_lt_Some in Hk. lia.
Qed.

Lemma app_split_at {A : Type} (l1 l2 before after : list A) (x : A) :
  l1 ++ l2 = before ++ x :: after ->
  x ∈ l1 \/ exists pre, before = l1 ++ pre /\ l2 = pre ++ x :: after.
Proof.
  revert before. induction l1 as [|a l1 IH]; intros before E.
  - right. now exists before.
  - destruct before as [|b before]; cbn in E; injection E as -> E.
    + left. apply elem_of_cons. now left.
    + destruct (IH before E) as [Hin|(pre & -> & ->)].
      * left. apply elem_of_cons. now right.
      * right. now exists pre.
Qed.

Lemma rounds_barrier (batchSize total : nat) :
  (0 < batchSize)%nat ->
  forall i (trace : list (event R)),
    rounds batchSize total i trace ->
    forall c, i = (c * batchSize)%nat ->
    forall before j' after,
      trace = before ++ Started j' :: after ->
      forall j, (i <= j < total)%nat ->
                (j / batchSize < j' / batchSize)%nat ->
                exists r, Settled j r ∈ before.
Proof.
  intros Hbs i trace Hr.
  induction Hr as [i Hi|i done later Hi Hperm Hr IH];
    intros c Hc before j' after E j Hj Hlt.
  - now destruct before.
  - set (len := Nat.min batchSize (total - i)) in *.
    rewrite 2 app_assoc in E.
    apply app_split_at in E as [Hin|(pre & -> & Hlater)].
    + exfalso.
      assert (Hj' : (i <= j' < i + batchSize)%nat).
      { apply elem_of_app in Hin as [Hin|Hin];
          [apply elem_of_app in Hin as [Hin|Hin]|].
        - apply list_elem_of_fmap in Hin as (x & [= ->] & Hx).
          apply elem_of_seq in Hx. lia.
        - unfold doneEvents in Hin.
          apply list_elem_of_fmap in Hin as (x & Hx & _). discriminate.
        - apply list_elem_of_singleton in Hin. discriminate. }
      assert (j' / batchSize < S c)%nat
        by (apply Nat.Div0.div_lt_upper_bound; nia).
      assert (c <= j / batchSize)%nat
        by (apply Nat.div_le_lower_bound; nia).
      lia.
    + destruct (Nat.lt_ge_cases j (i + batchSize)) as [Hnear|Hfar].
      * assert (Hin : j ∈ fst <$> done).
        { rewrite Hperm. apply elem_of_seq. lia. }
        apply list_elem_of_fmap in Hin as ([j0 v] & Hj0 & Hin).
        cbn in Hj0. subst j0. exists (Ok v).
        apply elem_of_app. left. apply elem_of_app. left.
        apply elem_of_app. right. unfold doneEvents.
        apply list_elem_of_fmap. exists (j, v). now split.
      * destruct (IH (S c) ltac:(lia) pre j' after Hlater j ltac:(lia) Hlt)
          as [r Hin].
        exists r. apply elem_of_app. now right.
Qed.

(** Jobs that leave the world alone whenever their value satisfies [Q]:
    when all values of a run satisfy [Q], the world is as it was. *)
Lemma ran_quiet (Q : R -> Prop) :
  (forall item w0 v w1, processor item w0 = (Ok v, w1) -> Q v -> w1 = w0) ->
  forall w done w',
    ran processor w done w' ->
    (forall j v, (j, v) ∈ done -> Q v) -> w' = w.
Proof.
  intros Hquiet w done w' Hran.
  induction Hran as [w|w w1 w' j item v rest Hrun _ IH]; intros HQ;
    [reflexivity|].
  assert (w1 = w).
  { eapply Hquiet; [exact Hrun|]. apply (HQ j). apply elem_of_cons. now left. }
  subst w1. apply IH. intros j0 v0 Hin. apply (HQ j0).
  apply elem_of_cons. now right.
Qed.

Lemma processInBatches_loop_quiet (Q : R -> Prop) (items : list T)
    (batchSize : nat) :
  (forall item w0 v w1, processor item w0 = (Ok v, w1) -> Q v -> w1 = w0) ->
  forall fuel i results trace w results' trace' w',
    processInBatches_loop processor sched fuel items batchSize i
                          results trace w
    = Some (Ok results', trace', w') ->
    exists more, results' = results ++ more /\ (Forall Q more -> w' = w).
Proof.
  intros Hquiet. induction fuel as [|fuel IH];
    intros i results trace w results' trace' w' E; [discriminate|].
  cbn [processInBatches_loop] in E.
  destruct (i <? length items)%nat.
  - destruct (promiseAll_spec i (take batchSize (drop i items)) w)
      as (done & values & w1 & Eall & _ & _ & _ & Hin & Hran).
    rewrite Eall in E.
    destruct (IH _ _ _ _ _ _ _ E) as (more & -> & Hmore).
    exists (values ++ more). split; [now rewrite app_assoc|].
    intros HQ. apply Forall_app in HQ as [HQv HQm].
    rewrite (Hmore HQm).
    apply (ran_quiet Q Hquiet w done w1 Hran).
    intros j v Hjv. rewrite Forall_forall in HQv. apply HQv.
    eapply Hin. exact Hjv.
  - injection E as <- <- <-. exists []. split; [now rewrite app_nil_r|].
    reflexivity.
Qed.

(** With pure jobs the result is the image of the input, whatever the
    settling order. *)
Lemma processInBatches_pure (f : T -> R) (items : list T)
    (batchSize : nat) (w : W) :
  (0 < batchSize)%nat ->
  (forall item w0, processor item w0 = (Ok (f item), w0)) ->
  exists trace w',
    processInBatches processor sched items batchSize w
    = Some (Ok (f <$> items), trace, w').
Proof.
  intros Hbs Hpure. unfold processInBatches.
  destruct (processInBatches_loop_spec items batchSize Hbs
              (S (length items)) 0%nat [] [] w)
    as (more & later & w' & E & Hlen & _ & Hres); [lia|].
  exists later, w'. rewrite E. cbn [app].
  enough (more = f <$> items) as -> by reflexivity.
  apply list_eq. intros j. rewrite list_lookup_fmap.
  destruct (items !! j) as [item|] eqn:Hj; cbn [fmap option_fmap option_map].
  - destruct (Hres j item Hj) as (v & w0 & w1 & Hv & Hrun & _).
    rewrite Hpure in Hrun. injection Hrun as <- _. exact Hv.
  - apply lookup_ge_None. apply lookup_ge_None in Hj. lia.
Qed.

End SchedulerProperties.

Section SchedulerDivergence.
Context {T R W : Type}.
Variable processor : T -> M W R.
Variable sched : list nat -> nat.

(** With [batchSize = 0] the index never advances: the loop of the
    source does not end, and no amount of fuel yields a result. *)
Lemma processInBatches_loop_zero (items : list T) (i : nat) :
  (i < length items)%nat ->
  forall fuel results trace w,
    processInBatches_loop processor sched fuel items 0 i results trace w
    = None.
Proof.
  intros Hi. induction fuel as [|fuel IH]; intros results trace w;
    [reflexivity|].
  cbn [processInBatches_loop].
  destruct (Nat.ltb_spec i (length items)) as [_|Hge]; [|lia].
  cbn [take]. unfold promiseAll. cbn. rewrite Nat.add_0_r. apply IH.
Qed.

End SchedulerDivergence.

(** ** One sourcemap *)

Section JobProperties.
Context {FS : Type} {fileSystem : FileSystem FS}.
Variable md5_hex : string -> string.
Variable fetch_sourcemap : string -> response SourcemapDocument.

(** The loop only ever appends to [results.files], and every entry it
    appends comes from running [extractSource] on a source that has its
    content, in the world the loop had reached by then. *)
Lemma extractFrom_files (contents : list (option string)) :
  forall remaining i results w r results' w',
    extractFrom md5_hex i remaining contents results w = (r, results', w') ->
    url results' = url results /\
    success results' = success results /\
    error results' = error results /\
    exists new,
      files results' = files results ++ new /\
      Forall (fun file =>
        exists k sourcePath content w_after,
          remaining !! k = Some sourcePath /\
          contentAt contents (i + k) = Some content /\
          extractSource md5_hex sourcePath content
            (snd (extractFrom md5_hex i (take k remaining) contents results w))
          = (Ok file, w_after)) new.
Proof.
  induction remaining as [|sourcePath later IH];
    intros i results w r results' w' E.
  - injection E as <- <- <-. repeat split; try reflexivity.
    exists []. now rewrite app_nil_r.
  - cbn [extractFrom] in E.
    destruct (contentAt contents i) as [content|] eqn:Hc.
    + destruct (extractSource md5_hex sourcePath content w)
        as [[file|e] w1] eqn:Hrun.
      * destruct (IH _ _ _ _ _ _ E) as (Hu & Hs & He & new & Hf & Hall).
        repeat split; try assumption.
        exists (file :: new). split.
        { rewrite Hf. cbn. now rewrite <- app_assoc. }
        constructor.
        -- exists 0%nat, sourcePath, content, w1.
           rewrite Nat.add_0_r. repeat split; assumption.
        -- eapply Forall_impl; [exact Hall|].
           intros f (k & sp & sc & wa & Hk & Hck & Hx).
           exists (S k), sp, sc, wa. rewrite Nat.add_succ_r.
           repeat split; try assumption.
           cbn [take extractFrom]. rewrite Hc, Hrun. exact Hx.
      * injection E as <- <- <-. repeat split; try reflexivity.
        exists []. now rewrite app_nil_r.
    + destruct (IH _ _ _ _ _ _ E) as (Hu & Hs & He & new & Hf & Hall).
      repeat split; try assumption.
      exists new. split; [assumption|].
      eapply Forall_impl; [exact Hall|].
      intros f (k & sp & sc & wa & Hk & Hck & Hx).
      exists (S k), sp, sc, wa. rewrite Nat.add_succ_r.
      repeat split; try assumption.
      cbn [take extractFrom]. rewrite Hc. exact Hx.
Qed.

(** What the [try] block can do to [results]. *)
Lemma tryBlock_cases (url0 : string) (w : FS) :
  let results := newResults url0 in
  (exists e, fetch_sourcemap url0 = FetchFailed e /\
             tryBlock md5_hex fetch_sourcemap results w = (Throw e, results, w))
  \/ (exists status payload,
        fetch_sourcemap url0 = Response status payload /\
        ok (Response status payload) = false /\
        tryBlock md5_hex fetch_sourcemap results w
        = (Ok tt, setFailure results ("HTTP " +:+ JsString.ofNat status), w))
  \/ (exists status e,
        (fetch_sourcemap url0 = Response status (BadJson e)
         \/ (fetch_sourcemap url0 = Response status JsonNull /\
             e = nullProperty "sources")) /\
        ok (fetch_sourcemap url0) = true /\
        tryBlock md5_hex fetch_sourcemap results w = (Throw e, results, w))
  \/ (exists status doc,
        fetch_sourcemap url0 = Response status (Json doc) /\
        ok (Response status (Json doc)) = true /\
        (sources doc = None \/ sourcesContent doc = None) /\
        tryBlock md5_hex fetch_sourcemap results w
        = (Ok tt, setFailure results "Invalid sourcemap format", w))
  \/ (exists status doc srcs contents,
        fetch_sourcemap url0 = Response status (Json doc) /\
        ok (Response status (Json doc)) = true /\
        sources doc = Some srcs /\ sourcesContent doc = Some contents /\
        tryBlock md5_hex fetch_sourcemap results w
        = extractFrom md5_hex 0 srcs contents results w).
Proof.
  cbv zeta. unfold tryBlock. cbn [url newResults].
  destruct (fetch_sourcemap url0) as [e|status payload] eqn:Hfetch.
  - left. eauto.
  - right. destruct (ok (Response status payload)) eqn:Hok; cbn [negb].
    + right. destruct payload as [e| |doc].
      * left. exists status, e. auto.
      * left. exists status, (nullProperty "sources"). auto.
      * right. destruct (sources doc) as [srcs|] eqn:Hs.
        -- destruct (sourcesContent doc) as [contents|] eqn:Hc.
           ++ right. exists status, doc, srcs, contents. auto.
           ++ left. exists status, doc. auto.
        -- left. exists status, doc. auto.
    + left. exists status, payload. auto.
Qed.

(** A loop that ends normally having pushed only unchanged entries has
    left the file system alone. *)
Lemma extractFrom_quiet (contents : list (option string)) :
  forall remaining i results w results' w',
    extractFrom md5_hex i remaining contents results w
    = (Ok tt, results', w') ->
    (forall file, file ∈ files results' -> isChanged file = false) ->
    w' = w.
Proof.
  induction remaining as [|sourcePath later IH];
    intros i results w results' w' E Hquiet.
  - now injection E as _ <-.
  - cbn [extractFrom] in E.
    destruct (contentAt contents i) as [content|]; [|eapply IH; eassumption].
    destruct (extractSource md5_hex sourcePath content w)
      as [[file|e] w1] eqn:Hrun; [|discriminate].
    assert (w' = w1) as -> by (eapply IH; eassumption).
    destruct (extractFrom_files contents _ _ _ _ _ _ _ E)
      as (_ & _ & _ & new & Hf & _).
    assert (Hfile : isChanged file = false).
    { apply Hquiet. rewrite Hf. cbn [files pushFile].
      apply elem_of_app. left. apply elem_of_app. right.
      apply list_elem_of_singleton. reflexivity. }
    apply extractSource_inv in Hrun. cbv zeta in Hrun.
    destruct Hrun as [(_ & old & _ & _ & _ & ->)
                     |[(_ & e & _ & [=] & _)
                      |[(_ & old & e & _ & _ & _ & [=] & _)
                       |(previous & _ & [(e & _ & [=])
                           |(w2 & _ & [(e & _ & [=])|(_ & [= ->])])])]]];
      [reflexivity|discriminate].
Qed.

Lemma job_quiet (url0 : string) (w w' : FS) (outcome : ExtractionOutcome) :
  downloadAndExtractSourcemap md5_hex fetch_sourcemap url0 w
  = (Ok outcome, w') ->
  success outcome = true
  /\ (forall file, file ∈ files outcome -> isChanged file = false) ->
  w' = w.
Proof.
  unfold downloadAndExtractSourcemap. intros E [Hs Hquiet].
  destruct (tryBlock_cases url0 w)
    as [(e & _ & Htry)
       |[(status & payload & _ & _ & Htry)
        |[(status & e & _ & _ & Htry)
         |[(status & doc & _ & _ & _ & Htry)
          |(status & doc & srcs & contents & _ & _ & _ & _ & Htry)]]]];
    rewrite Htry in E; try (injection E as <- <-; discriminate).
  destruct (extractFrom md5_hex 0 srcs contents (newResults url0) w)
    as [[[[]|e] results] w1] eqn:Eloop; injection E as <- <-;
    [|discriminate].
  eapply extractFrom_quiet; eassumption.
Qed.

Lemma job_returns (url0 : string) (w : FS) :
  exists outcome w',
    downloadAndExtractSourcemap md5_hex fetch_sourcemap url0 w
    = (Ok outcome, w').
Proof.
  unfold downloadAndExtractSourcemap.
  destruct (tryBlock md5_hex fetch_sourcemap (newResults url0) w)
    as [[[[]|e] results] w']; eauto.
Qed.


(** C9. The outcome of a job: [success] is true exactly when [error] is
    null; the outcome carries the URL of the job; an entry of [files]
    that is not changed has no [previousModified], and an entry whose
    [previousModified] is a date is changed, and when the loop reached
    its source the local file was there, with other content and that
    modification time. *)
Theorem outcome_invariant (url0 : string) (w : FS) :
  exists outcome w',
    downloadAndExtractSourcemap md5_hex fetch_sourcemap url0 w
    = (Ok outcome, w')
    /\ (success outcome = true <-> error outcome = None)
    /\ url outcome = url0
    /\ forall file, file ∈ files outcome ->
         (isChanged file = false -> previousModified file = Absent)
         /\ forall t, previousModified file = Mtime t ->
              isChanged file = true
              /\ exists status doc srcs contents k sourcePath content old,
                   fetch_sourcemap url0 = Response status (Json doc)
                   /\ sources doc = Some srcs
                   /\ sourcesContent doc = Some contents
                   /\ srcs !! k = Some sourcePath
                   /\ contentAt contents k = Some content
                   /\ path file = localPath sourcePath
                   /\ let wk := worldBefore md5_hex srcs contents k
                                           (newResults url0) w in
                      fs_access (path file) wk = Ok tt
                      /\ fs_readFile (path file) wk = Ok old
                      /\ old <> content
                      /\ fs_stat_mtime (path file) wk = Ok t.
Proof.
  unfold downloadAndExtractSourcemap.
  destruct (tryBlock_cases url0 w)
    as [(e & _ & ->)
       |[(status & payload & _ & _ & ->)
        |[(status & e & _ & _ & ->)
         |[(status & doc & _ & _ & _ & ->)
          |(status & doc & srcs & contents & Hfetch & _ & Hs & Hc & ->)]]]];
    try (eexists; eexists; split; [reflexivity|];
         split; [cbn; split; discriminate|];
         split; [reflexivity|];
         intros file Hin; inversion Hin).
  destruct (extractFrom md5_hex 0 srcs contents (newResults url0) w)
    as [[r results] w'] eqn:E.
  destruct (extractFrom_files contents _ _ _ _ _ _ _ E)
    as (Hu & Hsucc & Herr & new & Hf & Hall).
  cbn [files newResults app] in Hf.
  assert (Hfiles : forall file, file ∈ new ->
    (isChanged file = false -> previousModified file = Absent)
    /\ forall t, previousModified file = Mtime t ->
         isChanged file = true
         /\ exists status doc srcs contents k sourcePath content old,
              fetch_sourcemap url0 = Response status (Json doc)
              /\ sources doc = Some srcs
              /\ sourcesContent doc = Some contents
              /\ srcs !! k = Some sourcePath
              /\ contentAt contents k = Some content
              /\ path file = localPath sourcePath
              /\ let wk := worldBefore md5_hex srcs contents k
                                      (newResults url0) w in
                 fs_access (path file) wk = Ok tt
                 /\ fs_readFile (path file) wk = Ok old
                 /\ old <> content
                 /\ fs_stat_mtime (path file) wk = Ok t).
  { intros file Hin. rewrite Forall_forall in Hall.
    destruct (Hall file Hin) as (k & sp & sc & wa & Hk & Hck & Hx).
    cbn [Nat.add] in Hck. fold (worldBefore md5_hex srcs contents k
                                  (newResults url0) w) in Hx.
    apply extractSource_inv in Hx. cbv zeta in Hx.
    destruct Hx as [(_ & old & _ & _ & [= ->] & _)
                   |[(_ & e & _ & [=] & _)
                    |[(_ & old & e & _ & _ & _ & [=] & _)
                     |(previous & Hfound & [(e & _ & [=])
                         |(w1 & _ & [(e & _ & [=])|(_ & [= ->])])])]]].
    - split; [reflexivity|]. intros t [=].
    - split; [discriminate|]. intros t Ht. cbn in Ht. subst previous.
      split; [reflexivity|].
      destruct Hfound as [(_ & [=])|(Hacc & old & t' & Hrd & Hh & Hst & [= ->])].
      exists status, doc, srcs, contents, k, sp, sc, old.
      cbn [path]. repeat split; try assumption.
      intros ->. now apply Hh. }
  destruct r as [[]|e].
  - exists results, w'. split; [reflexivity|].
    split; [rewrite Hsucc, Herr; cbn; tauto|].
    split; [exact Hu|]. rewrite Hf. exact Hfiles.
  - exists (setFailure results e), w'. split; [reflexivity|].
    split; [cbn; split; discriminate|].
    split; [exact Hu|]. cbn [files setFailure]. rewrite Hf. exact Hfiles.
Qed.

End JobProperties.

Section SchedulerTheorem.
Context {T R W : Type}.
Variable processor : T -> M W R.
Variable sched : list nat -> nat.

(** C5. For a positive [batchSize] and jobs that never raise, whatever
    the order [sched] in which the jobs of a chunk settle:
    [processInBatches] returns; the result has the length of [items] and
    its entry [j] is a value that the job returned for [items[j]]; the
    trace is made of rounds over consecutive chunks of at most
    [batchSize] jobs; and no job of a later chunk is launched before
    every job of the earlier chunks has settled. *)
Theorem processInBatches_ordered (items : list T) (batchSize : nat) (w : W) :
  (0 < batchSize)%nat ->
  (forall item w0, exists v w1, processor item w0 = (Ok v, w1)) ->
  exists results trace w',
    processInBatches processor sched items batchSize w
    = Some (Ok results, trace, w')
    /\ length results = length items
    /\ (forall j item, items !! j = Some item ->
          exists v w0 w1,
            results !! j = Some v /\ processor item w0 = (Ok v, w1) /\
            Settled j (Ok v) ∈ trace)
    /\ rounds batchSize (length items) 0 trace
    /\ barrier batchSize (length items) trace.
Proof.
  intros Hbs Hret. unfold processInBatches.
  destruct (processInBatches_loop_spec processor sched Hret items batchSize
              Hbs (S (length items)) 0%nat [] [] w)
    as (more & later & w' & E & Hlen & Hr & Hres); [lia|].
  cbn [app] in E. exists more, later, w'.
  split; [exact E|]. split; [lia|]. split; [exact Hres|].
  split; [exact Hr|].
  intros before j' after Htrace j Hj Hlt.
  eapply (rounds_barrier batchSize (length items) Hbs 0%nat later Hr 0%nat);
    [reflexivity|exact Htrace|lia|exact Hlt].
Qed.

End SchedulerTheorem.

(** ** The whole run *)

Section RunProperties.
Context {FS : Type} {fileSystem : FileSystem FS}.
Variable md5_hex : string -> string.
Variable fetch_sourcemap : string -> response SourcemapDocument.
Variable fetch_revisions : response RevisionsDocument.
Variable stringifySorted : list string -> string.
Variable localeCompare : string -> string -> Z.
Variable now : Z.
Variable sched : list nat -> nat.

Local Abbreviation job :=
  (downloadAndExtractSourcemap md5_hex fetch_sourcemap).
Local Abbreviation run :=
  (main md5_hex fetch_sourcemap fetch_revisions stringifySorted
        localeCompare now sched).

Lemma batch_returns (items : list string) (batchSize : nat) (w : FS) :
  (0 < batchSize)%nat ->
  exists results trace w',
    processInBatches job sched items batchSize w
    = Some (Ok results, trace, w')
    /\ length results = length items.
Proof.
  intros Hbs. unfold processInBatches.
  destruct (processInBatches_loop_spec job sched
              (job_returns md5_hex fetch_sourcemap) items batchSize
              Hbs (S (length items)) 0%nat [] [] w)
    as (more & later & w' & E & Hlen & _); [lia|].
  exists more, later, w'. split; [exact E|lia].
Qed.

(** Once the revisions are refreshed, [main] always gets to the report. *)
Lemma main_reaches_finish (links : list string) (w w1 : FS) :
  updateRevisions fetch_revisions stringifySorted w = (Ok tt, w1) ->
  exists results w2,
    length results = length links /\
    run (Links links) w
    = Some (finish localeCompare now (aggregate results) w2).
Proof.
  intros Hrev. unfold main. rewrite Hrev.
  destruct (batch_returns (sourcemapLinks links) CONCURRENCY w1)
    as (results & trace & w2 & -> & Hlen); [unfold CONCURRENCY; lia|].
  exists results, w2. split; [|reflexivity].
  rewrite Hlen. unfold sourcemapLinks. apply length_fmap.
Qed.


End RunProperties.

(** ** The change set and the report *)

Section ReportProperties.

Lemma collect_sameForAggregator (a b : ExtractionOutcome) (stats : Stats) :
  sameForAggregator a b -> collect stats a = collect stats b.
Proof.
  intros (Hs & Hu & He & Hf). unfold collect. rewrite <- Hs.
  destruct (success a); cbn [negb].
  - now rewrite (Hf eq_refl).
  - now rewrite Hu, He.
Qed.

Lemma aggregate_sameForAggregator (results results' : list ExtractionOutcome) :
  Forall2 sameForAggregator results results' ->
  aggregate results = aggregate results'.
Proof.
  unfold aggregate. generalize {| changed := []; failed := [] |}.
  intros stats H. revert stats.
  induction H as [|a b l l' Hab _ IH]; intros stats; [reflexivity|].
  cbn [fold_left]. rewrite (collect_sameForAggregator a b stats Hab).
  apply IH.
Qed.

Lemma Map_set_keys {V : Type} (key k : string) (value : V)
    (entries : list (string * V)) :
  k ∈ fst <$> Map_set key value entries ->
  k = key \/ k ∈ fst <$> entries.
Proof.
  induction entries as [|[k0 v0] rest IH]; cbn [Map_set].
  - intros H. apply list_elem_of_singleton in H. now left.
  - destruct (String.eqb_spec k0 key) as [->|Hne]; rewrite !fmap_cons;
      cbn [fst]; intros H; apply elem_of_cons in H as [->|H].
    + now left.
    + right. apply elem_of_cons. now right.
    + right. apply elem_of_cons. now left.
    + destruct (IH H) as [->|Hin]; [now left|].
      right. apply elem_of_cons. now right.
Qed.

Lemma aggregate_keys (results : list ExtractionOutcome) (p : string) :
  p ∈ fst <$> changed (aggregate results) -> fromSuccess results p.
Proof.
  unfold aggregate.
  assert (H : forall stats,
    p ∈ fst <$> changed (fold_left collect results stats) ->
    p ∈ fst <$> changed stats \/ fromSuccess results p).
  { induction results as [|outcome results IH]; intros stats Hin;
      [now left|].
    cbn [fold_left] in Hin. destruct (IH _ Hin) as [Hc|(o & f & Ho & Hrest)].
    - unfold collect in Hc. destruct (success outcome) eqn:Hs; cbn [negb] in Hc;
        [|now left].
      cbn [changed] in Hc.
      assert (Hfold : forall fs m,
        p ∈ fst <$> fold_left
              (fun m file => Map_set (path file) (previousModified file) m)
              fs m ->
        p ∈ fst <$> m \/ exists file, file ∈ fs /\ path file = p).
      { clear. induction fs as [|f fs IHf]; intros m H; [now left|].
        cbn [fold_left] in H. destruct (IHf _ H) as [Hm|(file & Hf & Hp)].
        - apply Map_set_keys in Hm as [->|Hm]; [|now left].
          right. exists f. split; [apply elem_of_cons; now left|reflexivity].
        - right. exists file. split; [apply elem_of_cons; now right|exact Hp]. }
      destruct (Hfold _ _ Hc) as [Hm|(file & Hf & Hp)]; [now left|].
      right. exists outcome, file.
      apply list_elem_of_filter in Hf as [Hch Hf].
      repeat split; try assumption.
      + apply elem_of_cons. now left.
      + now apply Is_true_eq_true.
    - right. exists o, f. split; [apply elem_of_cons; now right|exact Hrest]. }
  intros Hin. destruct (H _ Hin) as [Hnil|Hok]; [|exact Hok].
  cbn in Hnil. inversion Hnil.
Qed.

Lemma Map_set_not_nil {V : Type} (key : string) (value : V)
    (entries : list (string * V)) :
  Map_set key value entries <> [].
Proof.
  destruct entries as [|[k v] rest]; cbn [Map_set]; [discriminate|].
  destruct (String.eqb k key); discriminate.
Qed.

(** An empty change set and an empty failure list: every job succeeded
    and reported no changed file. *)
Lemma aggregate_nothing (results : list ExtractionOutcome) :
  changed (aggregate results) = [] -> failed (aggregate results) = [] ->
  Forall (fun outcome =>
            success outcome = true /\
            forall file, file ∈ files outcome -> isChanged file = false)
         results.
Proof.
  unfold aggregate.
  assert (H : forall stats,
    changed (fold_left collect results stats) = [] ->
    failed (fold_left collect results stats) = [] ->
    changed stats = [] /\ failed stats = [] /\
    Forall (fun outcome =>
              success outcome = true /\
              forall file, file ∈ files outcome -> isChanged file = false)
           results).
  { induction results as [|outcome results IH]; intros stats Hc Hf;
      [now repeat split|].
    cbn [fold_left] in Hc, Hf.
    destruct (IH _ Hc Hf) as (Hc1 & Hf1 & Hall).
    unfold collect in Hc1, Hf1.
    destruct (success outcome) eqn:Hs; cbn [negb changed failed] in Hc1, Hf1.
    - assert (Hfold : forall fs m,
        fold_left
          (fun m file => Map_set (path file) (previousModified file) m)
          fs m = [] -> fs = [] /\ m = []).
      { clear. induction fs as [|f fs IHf]; intros m H; [now split|].
        cbn [fold_left] in H. destruct (IHf _ H) as [_ Hm].
        now apply Map_set_not_nil in Hm. }
      destruct (Hfold _ _ Hc1) as [Hnone Hstats].
      split; [exact Hstats|]. split; [exact Hf1|].
      constructor; [|exact Hall]. split; [exact Hs|].
      intros file Hin. destruct (isChanged file) eqn:Hch; [|reflexivity].
      assert (Hin' : file ∈ filter (fun file => isChanged file)
                              (files outcome)).
      { apply list_elem_of_filter. split; [now rewrite Hch|exact Hin]. }
      rewrite Hnone in Hin'. inversion Hin'.
    - now destruct (failed stats). }
  intros Hc Hf. now destruct (H _ Hc Hf) as (_ & _ & Hall).
Qed.

End ReportProperties.

Section RunTheorems.
Context {FS : Type} {fileSystem : FileSystem FS}.
Variable md5_hex : string -> string.
Variable fetch_sourcemap : string -> response SourcemapDocument.
Variable fetch_revisions : response RevisionsDocument.
Variable stringifySorted : list string -> string.
Variable localeCompare : string -> string -> Z.
Variable now : Z.
Variable sched : list nat -> nat.

Local Abbreviation job :=
  (downloadAndExtractSourcemap md5_hex fetch_sourcemap).
Local Abbreviation run :=
  (main md5_hex fetch_sourcemap fetch_revisions stringifySorted
        localeCompare now sched).
Local Abbreviation lines_of := (reportLines localeCompare now).

Lemma finish_noop (stats : Stats) (w : FS) :
  length (changed stats) = 0%nat -> failed stats = [] ->
  finish localeCompare now stats w = (Ok (Exited 0), w).
Proof. intros Hc Hf. unfold finish. now rewrite Hc, Hf. Qed.

Lemma finish_report (stats : Stats) (w : FS) :
  (0 < length (changed stats))%nat \/ failed stats <> [] ->
  finish localeCompare now stats w
  = match fs_writeFile "commit-message.txt"
            (commitMessage (lines_of stats)) w with
    | (Ok _, w1) =>
        match fs_writeFile "telegram-message.txt"
                (telegramMessage (lines_of stats)) w1 with
        | (Ok _, w2) => (Ok Returned, w2)
        | (Throw e, w2) => (Throw e, w2)
        end
    | (Throw e, w1) => (Throw e, w1)
    end.
Proof.
  intros H. unfold finish.
  assert (Hgate : (length (changed stats) =? 0)%nat
                  && (length (failed stats) =? 0)%nat = false).
  { destruct H as [H|H].
    - destruct (length (changed stats)); [lia|reflexivity].
    - destruct (failed stats); [congruence|].
      apply andb_false_r. }
  rewrite Hgate. unfold mbind, M_bind, mret, M_ret.
  destruct (fs_writeFile "commit-message.txt" _ w) as [[[]|e] w1];
    [|reflexivity].
  destruct (fs_writeFile "telegram-message.txt" _ w1) as [[[]|e] w2];
    reflexivity.
Qed.

(** The lines of a report that is written: the header and, after it, at
    least one block between its markers. *)
Lemma reportLines_shape (stats : Stats) :
  (0 < length (changed stats))%nat \/ failed stats <> [] ->
  exists rest,
    lines_of stats
    = ("chore: Changed " +:+ JsString.ofNat (length (changed stats))
         +:+ " file(s)") :: rest
    /\ rest <> []
    /\ (JsString.nl +:+ "<pre>") ∈ rest
    /\ "</pre>" ∈ rest.
Proof.
  intros H. unfold reportLines. cbn [app]. eexists. split; [reflexivity|].
  destruct (Nat.ltb_spec 0 (length (changed stats))) as [Hc|Hc].
  - split; [discriminate|]. split.
    + apply elem_of_app. left. apply elem_of_cons. right.
      apply elem_of_cons. now left.
    + apply elem_of_app. left. apply elem_of_cons. right.
      apply elem_of_cons. right. apply elem_of_app. right.
      apply list_elem_of_singleton. reflexivity.
  - destruct H as [H|H]; [lia|].
    destruct (failed stats) as [|f fs] eqn:Hf; [congruence|].
    cbn [length Nat.ltb Nat.leb app]. split; [discriminate|]. split.
    + apply elem_of_cons. right. apply elem_of_cons. now left.
    + apply elem_of_cons. right. apply elem_of_cons. right.
      apply elem_of_app. right. apply list_elem_of_singleton. reflexivity.
Qed.

Lemma join_cons (sep head : string) (rest : list string) :
  rest <> [] ->
  JsString.join sep (head :: rest) = head +:+ sep +:+ JsString.join sep rest.
Proof. destruct rest; [congruence|reflexivity]. Qed.

(** How a run that returns from [main] got there. *)
Lemma main_returned (links : parsedLinks) (w w' : FS) :
  run links w = Some (Ok Returned, w') ->
  exists entries w1 results trace w2 w3,
    links = Links entries
    /\ updateRevisions fetch_revisions stringifySorted w = (Ok tt, w1)
    /\ processInBatches job sched (sourcemapLinks entries) CONCURRENCY w1
       = Some (Ok results, trace, w2)
    /\ ((0 < length (changed (aggregate results)))%nat
        \/ failed (aggregate results) <> [])
    /\ fs_writeFile "commit-message.txt"
         (commitMessage (lines_of (aggregate results))) w2 = (Ok tt, w3)
    /\ fs_writeFile "telegram-message.txt"
         (telegramMessage (lines_of (aggregate results))) w3 = (Ok tt, w').
Proof.
  unfold main.
  destruct (updateRevisions fetch_revisions stringifySorted w)
    as [[[]|e] w1] eqn:Hrev; [|discriminate].
  destruct links as [message|entries]; [discriminate|].
  destruct (processInBatches job sched (sourcemapLinks entries) CONCURRENCY w1)
    as [[[[results|e] trace] w2]|] eqn:Hbatch; [|discriminate..].
  intros [= Hfin]. exists entries, w1, results, trace, w2.
  set (stats := aggregate results) in *.
  destruct (Nat.eq_dec (length (changed stats)) 0%nat) as [Hc|Hc].
  - destruct (failed stats) as [|f fs] eqn:Hf.
    + rewrite finish_noop in Hfin by assumption. discriminate.
    + rewrite finish_report in Hfin by (right; rewrite Hf; discriminate).
      destruct (fs_writeFile "commit-message.txt" _ w2) as [[[]|e] w3] eqn:E1;
        [|discriminate].
      destruct (fs_writeFile "telegram-message.txt" _ w3) as [[[]|e] w4] eqn:E2;
        [|discriminate].
      injection Hfin as <-. exists w3.
      repeat split; try assumption. right. discriminate.
  - rewrite finish_report in Hfin by (left; lia).
    destruct (fs_writeFile "commit-message.txt" _ w2) as [[[]|e] w3] eqn:E1;
      [|discriminate].
    destruct (fs_writeFile "telegram-message.txt" _ w3) as [[[]|e] w4] eqn:E2;
      [|discriminate].
    injection Hfin as <-. exists w3.
    repeat split; try assumption. left. lia.
Qed.

(** Batches whose outcomes leave the change set and the failure list
    empty have not touched the file system. *)
Lemma quiet_batches (items : list string) (batchSize : nat) (w w' : FS)
    (results : list ExtractionOutcome)
    (trace : list (event ExtractionOutcome)) :
  processInBatches job sched items batchSize w
  = Some (Ok results, trace, w') ->
  length (changed (aggregate results)) = 0%nat ->
  failed (aggregate results) = [] ->
  w' = w.
Proof.
  unfold processInBatches. intros E Hc Hf.
  destruct (processInBatches_loop_quiet job sched
              (job_returns md5_hex fetch_sourcemap)
              (fun outcome =>
                 success outcome = true /\
                 forall file, file ∈ files outcome -> isChanged file = false)
              items batchSize
              (fun item w0 v w1 => job_quiet md5_hex fetch_sourcemap item w0 w1 v)
              _ _ _ _ _ _ _ _ E)
    as (more & Hmore & Hquiet).
  cbn [app] in Hmore. subst more. apply Hquiet.
  apply aggregate_nothing; [|exact Hf].
  now destruct (changed (aggregate results)).
Qed.

(** C7 (amended). For a run whose batches are done: if no path changed
    and no download failed, the batches have written nothing and [main]
    exits with code 0 without writing, so neither report file is written;
    otherwise [main] writes [commit-message.txt] and then
    [telegram-message.txt], and returns when both writes succeed.  A
    write that raises is not caught: [main] then rejects, and when it is
    the first write the second file is not written. *)
Theorem report_gate (links : list string) (w w1 w2 : FS)
    (results : list ExtractionOutcome)
    (trace : list (event ExtractionOutcome)) :
  updateRevisions fetch_revisions stringifySorted w = (Ok tt, w1) ->
  processInBatches job sched (sourcemapLinks links) CONCURRENCY w1
  = Some (Ok results, trace, w2) ->
  let stats := aggregate results in
  let commit := commitMessage (lines_of stats) in
  let telegram := telegramMessage (lines_of stats) in
  (length (changed stats) = 0%nat /\ failed stats = [] ->
   w2 = w1 /\ run (Links links) w = Some (Ok (Exited 0), w1))
  /\ ((0 < length (changed stats))%nat \/ failed stats <> [] ->
      (forall w3 w4,
         fs_writeFile "commit-message.txt" commit w2 = (Ok tt, w3) ->
         fs_writeFile "telegram-message.txt" telegram w3 = (Ok tt, w4) ->
         run (Links links) w = Some (Ok Returned, w4))
      /\ (forall e w3,
           fs_writeFile "commit-message.txt" commit w2 = (Throw e, w3) ->
           run (Links links) w = Some (Throw e, w3))
      /\ (forall e w3 w4,
           fs_writeFile "commit-message.txt" commit w2 = (Ok tt, w3) ->
           fs_writeFile "telegram-message.txt" telegram w3 = (Throw e, w4) ->
           run (Links links) w = Some (Throw e, w4))).
Proof.
  intros Hrev Hbatch stats commit telegram. unfold main.
  rewrite Hrev, Hbatch. fold stats. split.
  - intros [Hc Hf].
    assert (w2 = w1) as -> by (eapply quiet_batches; eassumption).
    split; [reflexivity|]. now rewrite finish_noop.
  - intros Hsome. rewrite (finish_report stats w2 Hsome).
    fold commit telegram. split; [|split].
    + intros w3 w4 E1 E2. now rewrite E1, E2.
    + intros e w3 E1. now rewrite E1.
    + intros e w3 w4 E1 E2. now rewrite E1, E2.
Qed.

(** C2 (amended). In a run that writes its reports, the array [lines]
    is a header followed by further lines, among them the block markers.
    [telegram-message.txt] receives the lines after the header joined by
    line feeds, markers included; [commit-message.txt] receives the
    header and the same lines joined by line feeds, with both markers
    taken out of the text. *)
Theorem report_renderings (links : parsedLinks) (w w' : FS) :
  run links w = Some (Ok Returned, w') ->
  exists entries w1 results trace w2 w3 rest,
    let header := "chore: Changed "
                    +:+ JsString.ofNat (length (changed (aggregate results)))
                    +:+ " file(s)" in
    links = Links entries
    /\ processInBatches job sched (sourcemapLinks entries) CONCURRENCY w1
       = Some (Ok results, trace, w2)
    /\ lines_of (aggregate results) = header :: rest
    /\ (JsString.nl +:+ "<pre>") ∈ rest
    /\ "</pre>" ∈ rest
    /\ fs_writeFile "commit-message.txt"
         (stripMarkers
            (header +:+ JsString.nl +:+ JsString.join JsString.nl rest)) w2
       = (Ok tt, w3)
    /\ fs_writeFile "telegram-message.txt" (JsString.join JsString.nl rest) w3
       = (Ok tt, w').
Proof.
  intros Hrun.
  destruct (main_returned links w w' Hrun)
    as (entries & w1 & results & trace & w2 & w3
        & Hlinks & _ & Hbatch & Hsome & E1 & E2).
  destruct (reportLines_shape (aggregate results) Hsome)
    as (rest & Hlines & Hne & Hopen & Hclose).
  exists entries, w1, results, trace, w2, w3, rest. cbv zeta.
  split; [exact Hlinks|].
  split; [exact Hbatch|]. split; [exact Hlines|].
  split; [exact Hopen|]. split; [exact Hclose|].
  rewrite Hlines in E1, E2.
  unfold commitMessage in E1. rewrite (join_cons _ _ _ Hne) in E1.
  unfold telegramMessage in E2. cbn [drop] in E2.
  split; assumption.
Qed.

End RunTheorems.

(** ** Settled claims *)

Section SingleJob.
Context {T R W : Type}.
Variable processor : T -> M W R.
Variable sched : list nat -> nat.

(** A batch of one job does not depend on the settling order. *)
Lemma processInBatches_single (item : T) (batchSize : nat) (w : W) :
  (0 < batchSize)%nat ->
  processInBatches processor sched [item] batchSize w
  = match processor item w with
    | (Ok v, w') =>
        Some (Ok [v], [Started 0; Settled 0 (Ok v); Progress 1 1], w')
    | (Throw e, w') =>
        Some (Throw e, [Started 0; Settled 0 (Throw e)], w')
    end.
Proof.
  intros Hbs. destruct batchSize as [|[|b]]; [lia| |];
    unfold processInBatches; cbn -[Nat.modulo promiseAll];
    unfold promiseAll; cbn -[Nat.modulo];
    rewrite Nat.mod_1_r; cbn;
    destruct (processor item w) as [[v|e] w']; reflexivity.
Qed.

End SingleJob.

(** C1 (amended). The prefix that [cleanPath] removes is one or more
    lowercase letters followed by a colon and three slashes: for
    [<scheme>:///<rest>] the clean path is [<rest>]; a source path that
    is not of this form is kept as it is; and the path of the entry that
    is emitted is [path.join('.', cleanPath)]. *)
Theorem cleanPath_strips_three_slash_scheme :
  (forall scheme rest,
     scheme <> "" -> JsString.allLower scheme = true ->
     cleanPath (scheme +:+ ":///" +:+ rest) = rest)
  /\ (forall sourcePath,
        (exists scheme rest,
           scheme <> "" /\ JsString.allLower scheme = true /\
           sourcePath = scheme +:+ ":///" +:+ rest /\
           cleanPath sourcePath = rest)
        \/ ((forall scheme rest,
               scheme <> "" -> JsString.allLower scheme = true ->
               sourcePath <> scheme +:+ ":///" +:+ rest)
            /\ cleanPath sourcePath = sourcePath))
  /\ (forall (FS : Type) (fileSystem : FileSystem FS)
             (md5_hex : string -> string)
             (sourcePath content : string) (w w' : FS) (file : FileOutcome),
        extractSource md5_hex sourcePath content w = (Ok file, w') ->
        path file = Path.join ["."; cleanPath sourcePath]).
Proof.
  split; [|split].
  - intros scheme rest Hne Hlow. unfold cleanPath.
    now rewrite matchScheme_three_slashes.
  - intros sourcePath. unfold cleanPath.
    destruct (matchScheme sourcePath) as [rest|] eqn:E.
    + left. destruct (matchScheme_inv _ _ E) as (scheme & Hne & Hlow & ->).
      exists scheme, rest. auto.
    + right. split; [|reflexivity].
      intros scheme rest Hne Hlow ->.
      rewrite matchScheme_three_slashes in E by assumption. discriminate.
  - intros FS fileSystem md5_hex sourcePath content w w' file.
    apply extractSource_path.
Qed.

(** C8. [formatTimeSince] takes the first unit, in the order year,
    month, week, day, hour, minute, second, whose length is at most the
    distance between the time and now, and seconds when the distance is
    below a second; the lengths are 31536000000 ms for the year,
    2628000000 for the month, 604800000 for the week, 86400000 for the
    day, 3600000 for the hour, 60000 for the minute and 1000 for the
    second.  It prints the difference divided by that length, rounded to
    the nearest integer, as a long English phrase: in the past when the
    difference is negative, in the future otherwise.  259200000 ms ago
    is ["3 days ago"], 30000 ms ahead is ["in 30 seconds"]. *)
Theorem formatTimeSince_largest_unit (now time : Z) :
  (exists u v,
     (unitLength u <= Z.abs (time - now) \/ u = RelativeTime.second)
     /\ (forall u', (unitRank u' < unitRank u)%nat ->
                    Z.abs (time - now) < unitLength u')
     /\ RelativeTime.roundedQuotient (time - now) (unitLength u) v
     /\ RelativeTime.formatTimeSince now time
        = Some (RelativeTime.relativePhrase (time - now) v u))
  /\ RelativeTime.formatTimeSince now (now - 259200000) = Some "3 days ago"
  /\ RelativeTime.formatTimeSince now (now + 30000) = Some "in 30 seconds".
Proof.
  assert (Hlength : forall u, RelativeTime.msOf u = unitLength u)
    by (intros u; now destruct u).
  split; [|split].
  - unfold RelativeTime.formatTimeSince.
    destruct (formatTimeSince_loop_spec (time - now))
      as (u & [Hmet Hlargest] & ->).
    destruct (Math_round_div_spec (time - now) (RelativeTime.msOf u))
      as (v & Hv & Hphrase); [destruct u; reflexivity|].
    exists u, v. rewrite Hlength in Hmet, Hv.
    split; [exact Hmet|]. split.
    + intros u' Hrank. rewrite <- Hlength. apply Hlargest.
      rewrite !Hlength. destruct u, u'; cbn in Hrank |- *; lia.
    + split; [exact Hv|]. now rewrite Hphrase.
  - unfold RelativeTime.formatTimeSince.
    replace (now - 259200000 - now) with (-259200000) by lia.
    reflexivity.
  - unfold RelativeTime.formatTimeSince.
    replace (now + 30000 - now) with 30000 by lia.
    reflexivity.
Qed.

(** C3 (amended). [links.json = ["/foo"]], the host serves the sourcemap
    with [sources = ["webpack:///src/app.js"]] and
    [sourcesContent = ["const x=1;"]], the mirror is empty: the job
    writes one file, [src/app.js] ([path.join] drops the leading [./]),
    and emits [{path: 'src/app.js', isChanged: true, previousModified:
    null}]; the header is ["chore: Changed 1 file(s)"], the line of the
    file is ["src/app.js (new)"], and the commit message is the header
    and the listing without the markers. *)
Theorem scenario_new_file
    (md5_hex : string -> string) (stringifySorted : list string -> string)
    (localeCompare : string -> string -> Z) (now clock : Z)
    (sched : list nat -> nat) :
  let url0 := "https://spaces.im/foo.map" in
  let file := {| path := "src/app.js"; isChanged := true;
                 previousModified := Null |} in
  let outcome := {| url := url0; success := true; files := [file];
                    error := None |} in
  exists w1 w2,
    downloadAndExtractSourcemap md5_hex (Scenario.serving Scenario.appMap)
      url0 (MemFS.empty clock) = (Ok outcome, w1)
    /\ MemFS.nodes w1
       = <["src/app.js" := MemFS.File "const x=1;" clock]>
           (<["src" := MemFS.Dir clock]> ∅)
    /\ main md5_hex (Scenario.serving Scenario.appMap) Scenario.noRevisions
            stringifySorted localeCompare now sched (Links ["/foo"])
            (MemFS.empty clock)
       = Some (Ok Returned, w2)
    /\ reportLines localeCompare now (aggregate [outcome])
       = [ "chore: Changed 1 file(s)";
           JsString.nl +:+ "Changed files (1):";
           JsString.nl +:+ "<pre>";
           "src/app.js (new)";
           "</pre>" ]
    /\ MemFS.readFile "commit-message.txt" w2
       = Ok ("chore: Changed 1 file(s)" +:+ JsString.nl +:+ JsString.nl
             +:+ "Changed files (1):" +:+ JsString.nl +:+ JsString.nl
             +:+ "src/app.js (new)").
Proof.
  cbv zeta. eexists. eexists.
  split; [vm_compute; reflexivity|].
  split; [vm_compute; reflexivity|].
  split.
  { unfold main.
    change (updateRevisions Scenario.noRevisions stringifySorted
              (MemFS.empty clock)) with (@Ok unit tt, MemFS.empty clock).
    change (sourcemapLinks ["/foo"]) with ["https://spaces.im/foo.map"].
    lazy beta iota.
    rewrite processInBatches_single by (unfold CONCURRENCY; lia).
    vm_compute. reflexivity. }
  split; [vm_compute; reflexivity|].
  vm_compute. reflexivity.
Qed.

(** C10. The aggregator never looks at the [files] of an outcome that
    failed: two result lists that differ only there give the same change
    set and failure list, hence the same report, and every path of the
    change set comes from an outcome that succeeded.  This holds although
    such files can be on disk: with [sources] naming [a] and then
    [a/b.js], the job writes [a], fails on the second entry and returns
    [success: false] with [a] in [files]; [a] stays written and does not
    appear in the change set. *)
Theorem failed_outcomes_do_not_report :
  (forall results results' : list ExtractionOutcome,
     Forall2 sameForAggregator results results' ->
     aggregate results = aggregate results'
     /\ forall localeCompare now,
          reportLines localeCompare now (aggregate results)
          = reportLines localeCompare now (aggregate results'))
  /\ (forall (results : list ExtractionOutcome) (p : string),
        p ∈ fst <$> changed (aggregate results) -> fromSuccess results p)
  /\ (forall (md5_hex : string -> string) (clock : Z),
        exists outcome w1,
          downloadAndExtractSourcemap md5_hex
            (Scenario.serving Scenario.clashMap)
            "https://spaces.im/foo.map" (MemFS.empty clock)
          = (Ok outcome, w1)
          /\ success outcome = false
          /\ error outcome = Some "EEXIST: file already exists, mkdir 'a'"
          /\ files outcome
             = [ {| path := "a"; isChanged := true;
                    previousModified := Null |} ]
          /\ MemFS.nodes w1 = <["a" := MemFS.File "one" clock]> ∅
          /\ changed (aggregate [outcome]) = []
          /\ failed (aggregate [outcome])
             = [ ("https://spaces.im/foo.map",
                  Some "EEXIST: file already exists, mkdir 'a'") ]).
Proof.
  split; [|split].
  - intros results results' H.
    assert (E : aggregate results = aggregate results')
      by now apply aggregate_sameForAggregator.
    split; [exact E|]. intros localeCompare now. now rewrite E.
  - apply aggregate_keys.
  - intros md5_hex clock. eexists. eexists.
    split; [vm_compute; reflexivity|].
    repeat split; vm_compute; reflexivity.
Qed.

(** ** Where the spec's wording and the script part *)

(** C1, as worded: two slashes after the scheme.  [http://example.com/a.js]
    has that form and is left as it is. *)
Lemma two_slash_scheme_is_kept :
  "http" <> "" /\ JsString.allLower "http" = true
  /\ cleanPath ("http" +:+ "://" +:+ "example.com/a.js")
     = "http://example.com/a.js"
  /\ cleanPath ("http" +:+ "://" +:+ "example.com/a.js")
     <> "example.com/a.js".
Proof.
  split; [discriminate|]. split; [reflexivity|].
  split; [reflexivity|]. vm_compute. discriminate.
Qed.

(** C2, as worded: the text written to [telegram-message.txt] is the
    lines after the header, and it still has the markers. *)
Lemma telegram_message_keeps_markers :
  exists outcome w1 w',
    Scenario.jobFoo Scenario.appMap (MemFS.empty 0) = (Ok outcome, w1)
    /\ Scenario.runFoo Scenario.appMap (MemFS.empty 0)
       = Some (Ok Returned, w')
    /\ let lines :=
         reportLines Scenario.compareNames 0 (aggregate [outcome]) in
       MemFS.readFile "telegram-message.txt" w'
       = Ok (JsString.join JsString.nl (drop 1 lines))
       /\ MemFS.readFile "telegram-message.txt" w'
          <> Ok (stripMarkers (JsString.join JsString.nl (drop 1 lines))).
Proof.
  eexists. eexists. eexists.
  split; [vm_compute; reflexivity|].
  split; [vm_compute; reflexivity|].
  cbv zeta. split; [vm_compute; reflexivity|].
  vm_compute. discriminate.
Qed.

(** C3, as worded: the path and the line of the file start with [./]. *)
Lemma scenario_path_has_no_dot_slash :
  exists outcome w1,
    Scenario.jobFoo Scenario.appMap (MemFS.empty 0) = (Ok outcome, w1)
    /\ path <$> files outcome = ["src/app.js"]
    /\ path <$> files outcome <> ["./src/app.js"]
    /\ reportLines Scenario.compareNames 0 (aggregate [outcome]) !! 3%nat
       = Some "src/app.js (new)"
    /\ reportLines Scenario.compareNames 0 (aggregate [outcome]) !! 3%nat
       <> Some "./src/app.js (new)".
Proof.
  eexists. eexists.
  split; [vm_compute; reflexivity|].
  split; [vm_compute; reflexivity|].
  split; [vm_compute; discriminate|].
  split; [vm_compute; reflexivity|].
  vm_compute. discriminate.
Qed.



(** C7, as worded: both report files are written whenever something
    changed.  A source mirrored below [commit-message.txt] makes that
    path a directory; one path changed, the first write raises, and
    [telegram-message.txt] is not written. *)
Lemma report_write_can_fail :
  exists outcome w1 w',
    Scenario.jobFoo Scenario.shadowMap (MemFS.empty 0) = (Ok outcome, w1)
    /\ success outcome = true
    /\ length (changed (aggregate [outcome])) = 1%nat
    /\ Scenario.runFoo Scenario.shadowMap (MemFS.empty 0)
       = Some (Throw ("EISDIR: illegal operation on a directory, open "
                      +:+ "'commit-message.txt'"), w')
    /\ MemFS.lookup "telegram-message.txt" w' = None
    /\ MemFS.lookup "commit-message.txt" w' = Some (MemFS.Dir 0).
Proof.
  eexists. eexists. eexists.
  split; [vm_compute; reflexivity|].
  split; [vm_compute; reflexivity|].
  split; [vm_compute; reflexivity|].
  split; [vm_compute; reflexivity|].
  split; vm_compute; reflexivity.
Qed.

(** ** The statements at concrete inputs *)

(** C1 at [webpack:///src/app.js]. *)
Lemma cleanPath_webpack :
  "webpack" <> "" /\ JsString.allLower "webpack" = true
  /\ cleanPath ("webpack" +:+ ":///" +:+ "src/app.js") = "src/app.js".
Proof.
  split; [discriminate|]. split; [reflexivity|].
  apply (proj1 cleanPath_strips_three_slash_scheme);
    [discriminate|reflexivity].
Defined.

(** C2 on the first scenario of the spec. *)
Lemma report_renderings_foo :
  exists w',
    Scenario.runFoo Scenario.appMap (MemFS.empty 0) = Some (Ok Returned, w')
    /\ exists entries w1 results trace w2 w3 rest,
         let header := "chore: Changed "
                         +:+ JsString.ofNat
                               (length (changed (aggregate results)))
                         +:+ " file(s)" in
         Links ["/foo"] = Links entries
         /\ processInBatches
              (downloadAndExtractSourcemap Scenario.digest
                 (Scenario.serving Scenario.appMap))
              Scenario.inOrder (sourcemapLinks entries) CONCURRENCY w1
            = Some (Ok results, trace, w2)
         /\ reportLines Scenario.compareNames 0 (aggregate results)
            = header :: rest
         /\ (JsString.nl +:+ "<pre>") ∈ rest
         /\ "</pre>" ∈ rest
         /\ fs_writeFile "commit-message.txt"
              (stripMarkers
                 (header +:+ JsString.nl
                    +:+ JsString.join JsString.nl rest)) w2
            = (Ok tt, w3)
         /\ fs_writeFile "telegram-message.txt"
              (JsString.join JsString.nl rest) w3
            = (Ok tt, w').
Proof.
  eexists. split; [vm_compute; reflexivity|].
  apply (report_renderings Scenario.digest (Scenario.serving Scenario.appMap)
           Scenario.noRevisions Scenario.noStringify Scenario.compareNames 0
           Scenario.inOrder (Links ["/foo"]) (MemFS.empty 0)).
  vm_compute. reflexivity.
Defined.


(** The ordering scenario of the spec, with each pair settling in
    reverse: the values still come back in input order. *)
Example batches_of_two :
  processInBatches Scenario.echo Scenario.lastFirst
    ["a"; "b"; "c"; "d"; "e"] 2 tt
  = Some (Ok ["a"; "b"; "c"; "d"; "e"],
          [ Started 0; Started 1; Settled 1 (Ok "b"); Settled 0 (Ok "a");
            Progress 2 5;
            Started 2; Started 3; Settled 3 (Ok "d"); Settled 2 (Ok "c");
            Progress 4 5;
            Started 4; Settled 4 (Ok "e"); Progress 5 5 ],
          tt).
Proof. reflexivity. Qed.

(** C5 on that run. *)
Lemma batches_of_two_ordered :
  (0 < 2)%nat
  /\ (forall item w0, exists v w1, Scenario.echo item w0 = (Ok v, w1))
  /\ exists results trace w',
       processInBatches Scenario.echo Scenario.lastFirst
         ["a"; "b"; "c"; "d"; "e"] 2 tt
       = Some (Ok results, trace, w')
       /\ length results = 5%nat
       /\ rounds 2 5 0 trace
       /\ barrier 2 5 trace.
Proof.
  assert (H2 : (0 < 2)%nat) by lia.
  assert (Hecho : forall (item : string) (w0 : unit),
            exists v w1, Scenario.echo item w0 = (Ok v, w1)).
  { intros item w0. exists item, w0. reflexivity. }
  split; [exact H2|]. split; [exact Hecho|].
  destruct (processInBatches_ordered Scenario.echo Scenario.lastFirst
              ["a"; "b"; "c"; "d"; "e"] 2 tt H2 Hecho)
    as (results & trace & w' & E & Hlen & _ & Hr & Hb).
  exists results, trace, w'. repeat split; assumption.
Defined.

(** C7 on the second scenario of the spec: the mirror already holds the
    file, nothing changes, no report is written and the exit code is 0. *)
Lemma report_gate_nothing_changed :
  let w := Scenario.mirrored 3 5 in
  let outcome :=
    {| url := "https://spaces.im/foo.map"; success := true;
       files := [ {| path := "src/app.js"; isChanged := false;
                     previousModified := Absent |} ];
       error := None |} in
  let trace := [Started 0; Settled 0 (Ok outcome); Progress 1 1] in
  updateRevisions Scenario.noRevisions Scenario.noStringify w = (Ok tt, w)
  /\ processInBatches
       (downloadAndExtractSourcemap Scenario.digest
          (Scenario.serving Scenario.appMap))
       Scenario.inOrder (sourcemapLinks ["/foo"]) CONCURRENCY w
     = Some (Ok [outcome], trace, w)
  /\ (length (changed (aggregate [outcome])) = 0%nat
      /\ failed (aggregate [outcome]) = [])
  /\ Scenario.runFoo Scenario.appMap w = Some (Ok (Exited 0), w).
Proof.
  cbv zeta.
  assert (Hrev : updateRevisions Scenario.noRevisions Scenario.noStringify
                   (Scenario.mirrored 3 5)
                 = (Ok tt, Scenario.mirrored 3 5)) by reflexivity.
  pose (outcome :=
    {| url := "https://spaces.im/foo.map"; success := true;
       files := [ {| path := "src/app.js"; isChanged := false;
                     previousModified := Absent |} ];
       error := None |}).
  assert (Hbatch :
    processInBatches
      (downloadAndExtractSourcemap Scenario.digest
         (Scenario.serving Scenario.appMap))
      Scenario.inOrder (sourcemapLinks ["/foo"]) CONCURRENCY
      (Scenario.mirrored 3 5)
    = Some (Ok [outcome],
            [Started 0; Settled 0 (Ok outcome); Progress 1 1],
            Scenario.mirrored 3 5)) by (vm_compute; reflexivity).
  assert (Hnone : length (changed (aggregate [outcome])) = 0%nat
                  /\ failed (aggregate [outcome]) = [])
    by (split; reflexivity).
  split; [exact Hrev|]. split; [exact Hbatch|]. split; [exact Hnone|].
  exact (proj2 (proj1 (report_gate Scenario.digest
                  (Scenario.serving Scenario.appMap)
                  Scenario.noRevisions Scenario.noStringify
                  Scenario.compareNames 0 Scenario.inOrder ["/foo"]
                  (Scenario.mirrored 3 5) (Scenario.mirrored 3 5)
                  (Scenario.mirrored 3 5) [outcome]
                  [Started 0; Settled 0 (Ok outcome); Progress 1 1]
                  Hrev Hbatch) Hnone)).
Defined.

(** C9 for a sourcemap that lists one source twice. *)
Lemma outcome_invariant_twice :
  exists outcome w',
    Scenario.jobFoo Scenario.twiceMap (Scenario.mirrored 3 5)
    = (Ok outcome, w')
    /\ (success outcome = true <-> error outcome = None)
    /\ url outcome = "https://spaces.im/foo.map"
    /\ forall file, file ∈ files outcome ->
         forall t, previousModified file = Mtime t -> isChanged file = true.
Proof.
  destruct (outcome_invariant Scenario.digest
              (Scenario.serving Scenario.twiceMap)
              "https://spaces.im/foo.map" (Scenario.mirrored 3 5))
    as (outcome & w' & E & Hs & Hu & Hfiles).
  exists outcome, w'. split; [exact E|]. split; [exact Hs|].
  split; [exact Hu|].
  intros file Hin t Ht. exact (proj1 (proj2 (Hfiles file Hin) t Ht)).
Defined.

(** C10 for the outcome of the failed job above, with and without its
    [files]. *)
Lemma failed_files_are_ignored :
  let file := {| path := "a"; isChanged := true; previousModified := Null |} in
  let failure := Some "EEXIST: file already exists, mkdir 'a'" in
  let seen := {| url := "https://spaces.im/foo.map"; success := false;
                 files := [file]; error := failure |} in
  let bare := {| url := "https://spaces.im/foo.map"; success := false;
                 files := []; error := failure |} in
  Forall2 sameForAggregator [seen] [bare]
  /\ aggregate [seen] = aggregate [bare].
Proof.
  cbv zeta.
  assert (H : Forall2 sameForAggregator
    [ {| url := "https://spaces.im/foo.map"; success := false;
         files := [ {| path := "a"; isChanged := true;
                       previousModified := Null |} ];
         error := Some "EEXIST: file already exists, mkdir 'a'" |} ]
    [ {| url := "https://spaces.im/foo.map"; success := false;
         files := [];
         error := Some "EEXIST: file already exists, mkdir 'a'" |} ]).
  { constructor; [|constructor]. repeat split. discriminate. }
  split; [exact H|].
  exact (proj1 (proj1 failed_outcomes_do_not_report _ _ H)).
Defined.

(** * Further properties *)

(** ** The change set and the failure list *)

Section ChangeSet.

Local Abbreviation put :=
  (fun (m : list (string * previousModifiedValue)) (file : FileOutcome) =>
     Map_set (path file) (previousModified file) m).

(** [set] keeps the keys apart, and afterwards the map holds the new
    pair and the pairs of the other keys. *)
Lemma Map_set_NoDup {V : Type} (key : string) (value : V)
    (entries : list (string * V)) :
  NoDup (fst <$> entries) -> NoDup (fst <$> Map_set key value entries).
Proof.
  induction entries as [|[k v] rest IH]; cbn [Map_set fmap list_fmap fst].
  - intros _. apply NoDup_singleton.
  - intros Hnd. apply NoDup_cons in Hnd as [Hk Hrest].
    destruct (String.eqb k key) eqn:E; cbn [fmap list_fmap fst].
    + apply String.eqb_eq in E as <-. apply NoDup_cons. now split.
    + apply NoDup_cons. split; [|now apply IH].
      intros Hin. apply Map_set_keys in Hin as [->|Hin]; [|now apply Hk].
      now rewrite String.eqb_refl in E.
Qed.

Lemma Map_set_elem {V : Type} (key k : string) (value v : V)
    (entries : list (string * V)) :
  NoDup (fst <$> entries) ->
  ((k, v) ∈ Map_set key value entries <->
   (k = key /\ v = value) \/ (k <> key /\ (k, v) ∈ entries)).
Proof.
  induction entries as [|[k0 v0] rest IH]; cbn [Map_set fmap list_fmap fst].
  - intros _. rewrite list_elem_of_singleton. split.
    + intros [= -> ->]. now left.
    + intros [[-> ->]|[_ H]]; [reflexivity|inversion H].
  - intros Hnd. apply NoDup_cons in Hnd as [Hk Hrest].
    destruct (String.eqb k0 key) eqn:E.
    + apply String.eqb_eq in E as ->. rewrite !elem_of_cons. split.
      * intros [[= -> ->]|Hin]; [now left|]. right. split; [|now right].
        intros ->. apply Hk. apply list_elem_of_fmap. now exists (key, v).
      * intros [[-> ->]|[Hne [[= -> ->]|Hin]]];
          [now left|congruence|now right].
    + assert (Hne : k0 <> key).
      { intros ->. now rewrite String.eqb_refl in E. }
      rewrite !elem_of_cons, (IH Hrest). split.
      * intros [[= -> ->]|[Hnew|[Hk' Hin]]].
        -- right. split; [exact Hne|now left].
        -- now left.
        -- right. split; [exact Hk'|now right].
      * intros [Hnew|[Hk' [[= -> ->]|Hin]]].
        -- right. now left.
        -- now left.
        -- right. right. now split.
Qed.

Lemma put_all_NoDup (fs : list FileOutcome) :
  forall m, NoDup (fst <$> m) -> NoDup (fst <$> fold_left put fs m).
Proof.
  induction fs as [|f fs IH]; intros m Hnd; [exact Hnd|].
  cbn [fold_left]. apply IH. now apply Map_set_NoDup.
Qed.

(** After a run of [set]s a key holds the value of the last [set] on
    it, or the value it had when no [set] was on it. *)
Lemma put_all_elem (p : string) (v : previousModifiedValue)
    (fs : list FileOutcome) :
  forall m, NoDup (fst <$> m) ->
    ((p, v) ∈ fold_left put fs m <->
     (exists before file after,
        fs = before ++ file :: after /\ path file = p /\
        previousModified file = v /\
        forall later, later ∈ after -> path later <> p)
     \/ ((p, v) ∈ m /\ forall file, file ∈ fs -> path file <> p)).
Proof.
  induction fs as [|f fs IH]; intros m Hnd.
  - cbn [fold_left]. split.
    + intros Hin. right. split; [exact Hin|]. intros file H. inversion H.
    + intros [(before & file & after & H & _)|[Hin _]]; [|exact Hin].
      now destruct before.
  - cbn [fold_left]. rewrite (IH _ (Map_set_NoDup _ _ _ Hnd)).
    rewrite (Map_set_elem _ _ _ _ _ Hnd). split.
    + intros [(before & file & after & -> & Hp & Hv & Hlast)
             |[[[-> ->]|[Hne Hin]] Hnone]].
      * left. exists (f :: before), file, after. now repeat split.
      * left. exists [], f, fs. now repeat split.
      * right. split; [exact Hin|]. intros file [->|Hf]%elem_of_cons;
          [now apply not_eq_sym|now apply Hnone].
    + intros [(before & file & after & Hsplit & Hp & Hv & Hlast)
             |[Hin Hnone]].
      * destruct before as [|b before]; cbn [app] in Hsplit;
          injection Hsplit as -> ->.
        -- right. split; [left; now split|exact Hlast].
        -- left. exists before, file, after. now repeat split.
      * right. split.
        -- right. split; [|exact Hin]. apply not_eq_sym, Hnone.
           apply elem_of_cons. now left.
        -- intros file Hf. apply Hnone, elem_of_cons. now right.
Qed.

(** Among the files with a given path there is a last one. *)
Lemma last_with_path (p : string) (fs : list FileOutcome) :
  p ∈ path <$> fs ->
  exists before file after,
    fs = before ++ file :: after /\ path file = p /\
    forall later, later ∈ after -> path later <> p.
Proof.
  induction fs as [|f fs IH]; intros Hin; [inversion Hin|].
  destruct (decide (p ∈ path <$> fs)) as [Hmore|Hnone].
  - destruct (IH Hmore) as (before & file & after & -> & Hp & Hlast).
    exists (f :: before), file, after. now repeat split.
  - cbn [fmap list_fmap] in Hin. apply elem_of_cons in Hin as [->|Hin];
      [|contradiction].
    exists [], f, fs. repeat split.
    intros later Hl Heq. apply Hnone, list_elem_of_fmap. now exists later.
Qed.

(** [main] goes through the outcomes once: the change set is the result
    of the [set]s for [changedFiles], the failure list has the failed
    outcomes in their order. *)
Lemma aggregate_fold (results : list ExtractionOutcome) :
  forall stats,
    changed (fold_left collect results stats)
    = fold_left put (changedFiles results) (changed stats)
    /\ failed (fold_left collect results stats)
       = failed stats
         ++ ((fun outcome => (url outcome, error outcome)) <$>
               filter (fun outcome => success outcome = false) results).
Proof.
  induction results as [|outcome results IH]; intros stats.
  - cbn. now rewrite app_nil_r.
  - cbn [fold_left]. destruct (IH (collect stats outcome)) as [-> ->].
    unfold changedFiles. cbn [flat_map]. fold (changedFiles results).
    rewrite fold_left_app. unfold collect.
    destruct (success outcome) eqn:Hs; cbn [negb changed failed fold_left].
    + split; [reflexivity|]. rewrite filter_cons_False; [reflexivity|].
      now rewrite Hs.
    + split; [reflexivity|]. rewrite filter_cons_True by exact Hs.
      cbn [fmap list_fmap]. now rewrite <- app_assoc.
Qed.

(** X1. The change set never lists a path twice: its paths are
    pairwise different, and they are exactly the paths of the files
    that a successful outcome reports as changed.  The number in the
    header of the report is therefore the number of different changed
    paths. *)
Theorem change_set_paths_distinct (results : list ExtractionOutcome) :
  NoDup (fst <$> changed (aggregate results))
  /\ forall p, p ∈ fst <$> changed (aggregate results)
               <-> p ∈ path <$> changedFiles results.
Proof.
  unfold aggregate.
  destruct (aggregate_fold results {| changed := []; failed := [] |})
    as [-> _]. cbn [changed].
  assert (Hnil : NoDup (fst <$> ([] : list (string * previousModifiedValue))))
    by apply NoDup_nil_2.
  split; [now apply put_all_NoDup|].
  intros p. split.
  - intros ([k v] & -> & Hin)%list_elem_of_fmap. cbn [fst].
    apply list_elem_of_fmap.
    apply (put_all_elem k v _ _ Hnil) in Hin
      as [(before & file & after & -> & Hp & _)|[Hin _]]; [|inversion Hin].
    exists file. split; [now symmetry|].
    apply elem_of_app. right. apply elem_of_cons. now left.
  - intros Hin.
    destruct (last_with_path p _ Hin)
      as (before & file & after & Hsplit & Hp & Hl).
    apply list_elem_of_fmap.
    exists (p, previousModified file). split; [reflexivity|].
    apply (put_all_elem _ _ _ _ Hnil). left.
    exists before, file, after. now repeat split.
Qed.

(** X2. Last write wins: the change set holds for a path what the last
    changed file with this path reported, in the order in which [main]
    goes through the outcomes and their files. *)
Theorem change_set_last_write_wins (results : list ExtractionOutcome)
    (p : string) (v : previousModifiedValue) :
  (p, v) ∈ changed (aggregate results)
  <-> exists before file after,
        changedFiles results = before ++ file :: after /\
        path file = p /\ previousModified file = v /\
        forall later, later ∈ after -> path later <> p.
Proof.
  unfold aggregate.
  destruct (aggregate_fold results {| changed := []; failed := [] |})
    as [-> _]. cbn [changed].
  rewrite (put_all_elem p v _ []) by apply NoDup_nil_2.
  split; [|now left].
  intros [H|[H _]]; [exact H|inversion H].
Qed.

(** X3. The failure list has one pair for every outcome that failed,
    with its URL and error, in the order of the outcomes; outcomes that
    succeeded add nothing to it. *)
Theorem failure_list_in_outcome_order (results : list ExtractionOutcome) :
  failed (aggregate results)
  = (fun outcome => (url outcome, error outcome)) <$>
      filter (fun outcome => success outcome = false) results.
Proof.
  unfold aggregate.
  now destruct (aggregate_fold results {| changed := []; failed := [] |})
    as [_ ->].
Qed.

End ChangeSet.

(** ** The listing of the changed files *)

Section Listing.
Context {A : Type}.
Variable compare : A -> A -> Z.

Lemma sort_insert_Permutation (x : A) (sorted : list A) :
  Permutation (sort_insert compare x sorted) (x :: sorted).
Proof.
  induction sorted as [|y rest IH]; cbn [sort_insert]; [reflexivity|].
  destruct (compare x y <=? 0); [reflexivity|].
  rewrite IH. apply perm_swap.
Qed.

Lemma Array_sort_Permutation (l : list A) :
  Permutation (Array_sort compare l) l.
Proof.
  unfold Array_sort. induction l as [|x l IH]; cbn [foldr]; [reflexivity|].
  rewrite sort_insert_Permutation. now constructor.
Qed.

Hypothesis compare_total : forall a b, compare a b <= 0 \/ compare b a <= 0.
Hypothesis compare_trans :
  forall a b c, compare a b <= 0 -> compare b c <= 0 -> compare a c <= 0.

Lemma sort_insert_sorted (x : A) (sorted : list A) :
  StronglySorted (fun a b => compare a b <= 0) sorted ->
  StronglySorted (fun a b => compare a b <= 0) (sort_insert compare x sorted).
Proof.
  induction sorted as [|y rest IH]; cbn [sort_insert]; intros Hs.
  - constructor; [constructor|constructor].
  - apply StronglySorted_inv in Hs as [Hrest Hy].
    destruct (compare x y <=? 0) eqn:E.
    + apply Z.leb_le in E. constructor.
      * now constructor.
      * constructor; [exact E|].
        eapply Forall_impl; [exact Hy|]. intros z Hz. cbn beta in *.
        now apply (compare_trans x y z).
    + apply Z.leb_gt in E. constructor; [now apply IH|].
      rewrite (sort_insert_Permutation x rest).
      constructor; [|exact Hy].
      destruct (compare_total x y) as [H|H]; [lia|exact H].
Qed.

Lemma Array_sort_sorted (l : list A) :
  StronglySorted (fun a b => compare a b <= 0) (Array_sort compare l).
Proof.
  unfold Array_sort. induction l as [|x l IH]; cbn [foldr]; [constructor|].
  now apply sort_insert_sorted.
Qed.

End Listing.

(** The comparison of the concrete runs is a total preorder. *)
Lemma compareNames_le (a b : string) :
  Scenario.compareNames a b <= 0 <-> (a ≤ b)%string.
Proof.
  unfold Scenario.compareNames, String.le, String.leb.
  destruct (String.compare a b); cbn; split; (lia || tauto || easy).
Qed.

(** X4. The block of the changed files has one line for every entry of
    the change set, and the lines are in the order of [localeCompare]
    on the paths, whenever [localeCompare] is a total preorder. *)
Theorem changed_listing_sorted (localeCompare : string -> string -> Z)
    (now : Z) (stats : Stats) :
  (forall a b, localeCompare a b <= 0 \/ localeCompare b a <= 0) ->
  (forall a b c, localeCompare a b <= 0 -> localeCompare b c <= 0 ->
                 localeCompare a c <= 0) ->
  (0 < length (changed stats))%nat ->
  exists sorted,
    Permutation sorted (changed stats)
    /\ StronglySorted (fun a b => localeCompare (fst a) (fst b) <= 0) sorted
    /\ take (length (changed stats))
            (drop 3 (reportLines localeCompare now stats))
       = changedLine now <$> sorted.
Proof.
  intros Htotal Htrans Hsize.
  exists (Array_sort (fun a b => localeCompare (fst a) (fst b))
                     (changed stats)).
  split; [apply Array_sort_Permutation|].
  split.
  - apply (Array_sort_sorted (fun a b => localeCompare (fst a) (fst b))).
    + intros a b. apply Htotal.
    + intros a b c. apply Htrans.
  - unfold reportLines.
    apply Nat.ltb_lt in Hsize as ->.
    cbn [app drop]. rewrite drop_0, <- app_assoc.
    rewrite take_app_length'; [reflexivity|].
    rewrite length_fmap.
    apply Permutation_length.
    symmetry. apply Array_sort_Permutation.
Qed.

(** The listing of two new files, put into the change set in the other
    order. *)
Lemma changed_listing_sorted_two :
  exists sorted,
    Permutation sorted [("b.js", Null); ("a.js", Null)]
    /\ StronglySorted
         (fun a b => Scenario.compareNames (fst a) (fst b) <= 0) sorted
    /\ take 2 (drop 3 (reportLines Scenario.compareNames 0
                         {| changed := [("b.js", Null); ("a.js", Null)];
                            failed := [] |}))
       = changedLine 0 <$> sorted.
Proof.
  apply (changed_listing_sorted Scenario.compareNames 0
           {| changed := [("b.js", Null); ("a.js", Null)]; failed := [] |}).
  - intros a b. rewrite !compareNames_le. apply String.le_total.
  - intros a b c. rewrite !compareNames_le. apply transitivity.
  - cbn. lia.
Defined.

(** ** Relative times *)

Ltac units_ms :=
  change (RelativeTime.msOf RelativeTime.year) with 31536000000 in *;
  change (RelativeTime.msOf RelativeTime.month) with 2628000000 in *;
  change (RelativeTime.msOf RelativeTime.week) with 604800000 in *;
  change (RelativeTime.msOf RelativeTime.day) with 86400000 in *;
  change (RelativeTime.msOf RelativeTime.hour) with 3600000 in *;
  change (RelativeTime.msOf RelativeTime.minute) with 60000 in *;
  change (RelativeTime.msOf RelativeTime.second) with 1000 in *.

(** X5. [formatTimeSince] always gives a phrase; the count in it is 0
    only with seconds, and it is at most 60 with seconds and minutes, 24
    with hours, 7 with days, 4 with weeks and 12 with months. *)
Theorem formatTimeSince_count_bounds (now time : Z) :
  exists u v,
    RelativeTime.formatTimeSince now time
    = Some (RelativeTime.relativePhrase (time - now) v u)
    /\ RelativeTime.roundedQuotient (time - now) (RelativeTime.msOf u) v
    /\ (u <> RelativeTime.second -> 1 <= Z.abs v)
    /\ (forall most, largestCount u = Some most -> Z.abs v <= most)
    /\ (v = 0 <-> -500 <= time - now < 500).
Proof.
  unfold RelativeTime.formatTimeSince.
  destruct (formatTimeSince_loop_spec (time - now)) as (u & [Hmet Hlargest] & ->).
  destruct (Math_round_div_spec (time - now) (RelativeTime.msOf u))
    as (v & Hv & Hphrase); [destruct u; reflexivity|].
  exists u, v. rewrite Hphrase.
  split; [reflexivity|]. split; [exact Hv|].
  unfold RelativeTime.roundedQuotient in Hv.
  pose proof (Hlargest RelativeTime.year) as Hyear.
  pose proof (Hlargest RelativeTime.month) as Hmonth.
  pose proof (Hlargest RelativeTime.week) as Hweek.
  pose proof (Hlargest RelativeTime.day) as Hday.
  pose proof (Hlargest RelativeTime.hour) as Hhour.
  pose proof (Hlargest RelativeTime.minute) as Hminute.
  clear Hlargest Hphrase.
  destruct u; units_ms.
  all: split;
    [intros Hunit;
     first [congruence|destruct Hmet as [Hmet|Hmet]; [lia|discriminate]]|].
  all: split;
    [intros most Hmost; cbn in Hmost;
     first [discriminate|injection Hmost as <-; lia]|].
  all: try (destruct Hmet as [Hmet|Hmet]; [|discriminate]).
  all: lia.
Qed.

(** ** Local paths *)

Section LocalPaths.

Local Abbreviation chars := String.list_ascii_of_string.

Lemma rev_app_chars (s acc : string) :
  chars (String.rev_app s acc) = rev (chars s) ++ chars acc.
Proof.
  revert acc. induction s as [|c s IH]; intros acc; cbn; [reflexivity|].
  rewrite IH. cbn. now rewrite <- app_assoc.
Qed.

(** No segment of a split holds the separator. *)
Lemma split_go_segments (sep : ascii) (s : string) :
  forall cur,
    Forall (fun c => c <> sep) (chars cur) ->
    Forall (fun seg => Forall (fun c => c <> sep) (chars seg))
           (JsString.split_go sep cur s).
Proof.
  assert (Hrev : forall cur, Forall (fun c => c <> sep) (chars cur) ->
                   Forall (fun c => c <> sep) (chars (String.rev cur))).
  { intros cur Hcur. unfold String.rev. rewrite rev_app_chars. cbn.
    rewrite app_nil_r. now apply Forall_rev. }
  induction s as [|c s IH]; intros cur Hcur; cbn [JsString.split_go].
  - constructor; [now apply Hrev|constructor].
  - destruct (Ascii.eqb c sep) eqn:E.
    + constructor; [now apply Hrev|]. apply IH. constructor.
    + apply IH. cbn. constructor; [|exact Hcur].
      now apply Ascii.eqb_neq.
Qed.

Lemma isAbsolute_no_slash (seg : string) :
  Forall (fun c => c <> Path.slash) (chars seg) ->
  Path.isAbsolute seg = false.
Proof.
  destruct seg as [|c seg]; [reflexivity|]. cbn. intros H.
  apply Forall_cons in H as [Hc _]. now apply Ascii.eqb_neq.
Qed.

Lemma isAbsolute_append (a b : string) :
  a <> "" -> Path.isAbsolute (a +:+ b) = Path.isAbsolute a.
Proof. destruct a; [congruence|reflexivity]. Qed.

Lemma append_not_empty (a b : string) : a <> "" -> a +:+ b <> "".
Proof. destruct a; [congruence|discriminate]. Qed.

(** The segments that [normalizeString] keeps are not empty and do not
    start with a slash. *)
Lemma pushSegment_kept (allowAboveRoot : bool) (stack : list string)
    (seg : string) :
  Path.isAbsolute seg = false ->
  Forall (fun s => s <> "" /\ Path.isAbsolute s = false) stack ->
  Forall (fun s => s <> "" /\ Path.isAbsolute s = false)
         (Path.pushSegment allowAboveRoot stack seg).
Proof.
  intros Hseg Hstack. unfold Path.pushSegment.
  destruct (String.eqb seg "") eqn:E1; [exact Hstack|].
  destruct (String.eqb seg ".") eqn:E2; [exact Hstack|].
  destruct (String.eqb seg "..") eqn:E3.
  - apply String.eqb_eq in E3 as ->.
    destruct stack as [|top below].
    + destruct allowAboveRoot; [|constructor].
      constructor; [now split|constructor].
    + destruct (String.eqb top "..").
      * destruct allowAboveRoot; [|exact Hstack].
        constructor; [now split|exact Hstack].
      * now apply Forall_cons in Hstack as [_ Hbelow].
  - constructor; [|exact Hstack]. split; [|exact Hseg].
    intros ->. discriminate.
Qed.

Lemma normalizeString_relative (p : string) (allowAboveRoot : bool) :
  Path.isAbsolute (Path.normalizeString p allowAboveRoot) = false.
Proof.
  unfold Path.normalizeString, JsString.split.
  assert (Hkept : forall segs stack,
    Forall (fun seg => Path.isAbsolute seg = false) segs ->
    Forall (fun s => s <> "" /\ Path.isAbsolute s = false) stack ->
    Forall (fun s => s <> "" /\ Path.isAbsolute s = false)
           (fold_left (Path.pushSegment allowAboveRoot) segs stack)).
  { induction segs as [|seg segs IH]; intros stack Hsegs Hstack;
      [exact Hstack|].
    apply Forall_cons in Hsegs as [Hseg Hsegs]. cbn [fold_left].
    apply IH; [exact Hsegs|]. now apply pushSegment_kept. }
  specialize (Hkept (JsString.split_go Path.slash "" p) []).
  apply Forall_rev in Hkept.
  - destruct (rev _) as [|first others]; [reflexivity|].
    apply Forall_cons in Hkept as [[Hne Hrel] _].
    unfold JsString.join. cbn [String.concat].
    destruct others; [exact Hrel|].
    now rewrite isAbsolute_append.
  - eapply Forall_impl; [apply split_go_segments; constructor|].
    intros seg. apply isAbsolute_no_slash.
  - constructor.
Qed.

(** X6. The local path of a source is never empty and never absolute,
    whatever the source path is: every file of the mirror is addressed
    relative to the working directory. *)
Theorem localPath_is_relative (sourcePath : string) :
  localPath sourcePath <> "" /\ Path.isAbsolute (localPath sourcePath) = false.
Proof.
  unfold localPath, Path.join.
  remember (cleanPath sourcePath) as clean eqn:Hclean. clear Hclean.
  assert (Hnorm : forall rest,
    let p := String "."%char rest in
    Path.normalize p <> "" /\ Path.isAbsolute (Path.normalize p) = false).
  { intros rest p. unfold Path.normalize. subst p. cbn [Path.isAbsolute].
    change (Ascii.eqb "."%char Path.slash) with false. cbn [negb].
    pose proof (normalizeString_relative (String "."%char rest) true) as Hrel.
    destruct (Path.normalizeString (String "."%char rest) true)
      as [|c body] eqn:Hbody.
    - destruct (match JsString.last _ with Some _ => _ | None => _ end);
        now split.
    - destruct (match JsString.last _ with Some _ => _ | None => _ end).
      + split; [now apply append_not_empty|].
        now rewrite isAbsolute_append.
      + now split. }
  destruct clean as [|c clean].
  - vm_compute. now split.
  - rewrite filter_cons_True by (cbn; tauto).
    rewrite filter_cons_True by (cbn; tauto).
    rewrite filter_nil.
    exact (Hnorm ("/" +:+ String c clean)).
Qed.

End LocalPaths.

(** ** The scheduler when a job rejects, and with batch size 0 *)

Section SchedulerRejection.
Context {T R W : Type}.
Variable processor : T -> M W R.
Variable sched : list nat -> nat.

Local Abbreviation settledEvents :=
  (fmap (M := list) (fun p : nat * result R => Settled (fst p) (snd p))).
Local Abbreviation allOk :=
  (fun settled : list (nat * result R) =>
     forall j r, (j, r) ∈ settled -> exists v, r = Ok v).

(** What [settle] does without any assumption on the jobs: the jobs
    that settle are jobs of [pending], and the failure kept is the one
    that was there, or else the first rejection. *)
Lemma settle_any (base n : nat) :
  forall pending values failure trace w values' failure' trace' w',
    settle processor sched n base pending values failure trace w
    = (values', failure', trace', w') ->
    exists settled,
      trace' = trace ++ settledEvents settled
      /\ (forall j r, (j, r) ∈ settled ->
            exists item w0 w1,
              (j, item) ∈ pending /\ processor item w0 = (r, w1))
      /\ match failure with
         | Some e => failure' = Some e
         | None =>
             (failure' = None /\ allOk settled)
             \/ exists first j e rest,
                  settled = first ++ (j, Throw e) :: rest /\
                  allOk first /\ failure' = Some e
         end.
Proof.
  induction n as [|n IH];
    intros pending values failure trace w values' failure' trace' w' Hrun.
  - cbn in Hrun. injection Hrun as <- <- <- <-. exists [].
    split; [now rewrite app_nil_r|]. split; [intros j r H; inversion H|].
    destruct failure; [reflexivity|]. left. split; [reflexivity|].
    intros j r H. inversion H.
  - cbn [settle] in Hrun.
    destruct (pending !! _) as [[j item]|] eqn:Hk.
    + destruct (processor item w) as [r w1] eqn:Hjob.
      apply IH in Hrun as (settled & -> & Hjobs & Hfail).
      exists ((j, r) :: settled). split; [now rewrite <- app_assoc|].
      split.
      * intros j' r' [[= -> ->]|Hin]%elem_of_cons.
        -- exists item, w, w1. split; [|exact Hjob].
           eapply list_elem_of_lookup_2, Hk.
        -- destruct (Hjobs _ _ Hin) as (item' & w0 & w2 & Hp & Hj).
           exists item', w0, w2. split; [|exact Hj].
           eapply elem_of_sublist; [exact Hp|apply sublist_delete].
      * destruct failure as [e0|]; [exact Hfail|].
        destruct r as [v|e].
        -- destruct Hfail as [[-> Hok]|(first & j' & e & rest & -> & Hok & ->)].
           ++ left. split; [reflexivity|].
              intros j' r' [[= -> ->]|Hin]%elem_of_cons;
                [now exists v|now apply (Hok j')].
           ++ right. exists ((j, Ok v) :: first), j', e, rest.
              split; [reflexivity|]. split; [|reflexivity].
              intros j0 r' [[= -> ->]|Hin]%elem_of_cons;
                [now exists v|now apply (Hok j0)].
        -- right. exists [], j, e, settled. split; [reflexivity|].
           split; [intros j0 r' H; inversion H|exact Hfail].
    + injection Hrun as <- <- <- <-. exists [].
      split; [now rewrite app_nil_r|]. split; [intros j r H; inversion H|].
      destruct failure; [reflexivity|]. left. split; [reflexivity|].
      intros j r H. inversion H.
Qed.

Lemma promiseAll_any (base : nat) (batch : list T) (w w' : W)
    (r : result (list R)) (batchTrace : list (event R)) :
  promiseAll processor sched base batch w = (r, batchTrace, w') ->
  exists launched settled,
    batchTrace = launched ++ settledEvents settled
    /\ (forall ev, ev ∈ launched ->
          exists j, ev = Started j /\ (base <= j < base + length batch)%nat)
    /\ (forall j r0, (j, r0) ∈ settled ->
          exists item w0 w1,
            (base <= j)%nat /\ batch !! (j - base)%nat = Some item /\
            processor item w0 = (r0, w1))
    /\ match r with
       | Ok _ => allOk settled
       | Throw e =>
           exists first j rest,
             settled = first ++ (j, Throw e) :: rest /\ allOk first
       end.
Proof.
  unfold promiseAll. intros Hrun.
  destruct (settle _ _ _ _ _ _ _ _ _) as [[[values failure] trace] w1] eqn:Hs.
  apply settle_any in Hs as (settled & -> & Hjobs & Hfail).
  assert (Hpending : forall j item,
    (j, item) ∈ imap (fun k item => ((base + k)%nat, item)) batch ->
    (base <= j < base + length batch)%nat /\
    batch !! (j - base)%nat = Some item).
  { intros j item (k & y & [= -> ->] & Hk)%elem_of_lookup_imap.
    pose proof (lookup_lt_Some _ _ _ Hk).
    replace (base + k - base)%nat with k by lia. split; [lia|exact Hk]. }
  exists ((fun p => Started (fst p)) <$>
            imap (fun k item => ((base + k)%nat, item)) batch), settled.
  assert (Hlaunched : forall ev,
    ev ∈ (fun p : nat * T => @Started R (fst p)) <$>
           imap (fun k item => ((base + k)%nat, item)) batch ->
    exists j, ev = Started j /\ (base <= j < base + length batch)%nat).
  { intros ev ([j item] & -> & Hin)%list_elem_of_fmap.
    exists j. split; [reflexivity|]. now apply (Hpending j item). }
  assert (Hitems : forall j r0, (j, r0) ∈ settled ->
    exists item w0 w1,
      (base <= j)%nat /\ batch !! (j - base)%nat = Some item /\
      processor item w0 = (r0, w1)).
  { intros j r0 Hin. destruct (Hjobs _ _ Hin) as (item & w0 & w2 & Hp & Hj).
    apply Hpending in Hp as [Hrange Hlook].
    exists item, w0, w2. split; [lia|]. now split. }
  destruct Hfail as [[-> Hok]|(first & j & e & rest & -> & Hok & ->)].
  - injection Hrun as <- <- <-. now repeat split.
  - injection Hrun as <- <- <-. repeat split; try assumption.
    now exists first, j, rest.
Qed.

Lemma processInBatches_loop_rejects (items : list T) (batchSize : nat) :
  forall fuel i results trace w e trace' w',
    processInBatches_loop processor sched fuel items batchSize i
                          results trace w
    = Some (Throw e, trace', w') ->
    exists j item w0 w1 before after,
      (i <= j)%nat /\ items !! j = Some item /\
      processor item w0 = (Throw e, w1) /\
      trace' = trace ++ before ++ Settled j (Throw e) :: after /\
      (forall j' e', Settled j' (Throw e') ∉ before) /\
      (forall j', Started j' ∈ before ++ Settled j (Throw e) :: after ->
                  (j' < j + batchSize)%nat).
Proof.
  induction fuel as [|fuel IH]; intros i results trace w e trace' w' Hrun;
    [discriminate|].
  cbn [processInBatches_loop] in Hrun.
  destruct (i <? length items)%nat; [|discriminate].
  destruct (promiseAll _ _ _ _ _) as [[r batchTrace] w1] eqn:Hbatch.
  apply promiseAll_any in Hbatch
    as (launched & settled & -> & Hlaunched & Hjobs & Hr).
  assert (Hlen : (length (take batchSize (drop i items)) <= batchSize)%nat)
    by (rewrite length_take; lia).
  assert (Hnone : forall j' e',
    allOk settled -> Settled j' (Throw e') ∉ launched ++ settledEvents settled).
  { intros j' e' Hok [Hin|Hin]%elem_of_app.
    - destruct (Hlaunched _ Hin) as (j0 & [=] & _).
    - apply list_elem_of_fmap in Hin as ([j0 r0] & [= -> <-] & Hin).
      now destruct (Hok _ _ Hin). }
  assert (Hstarted : forall j' s,
    Started j' ∈ launched ++ settledEvents s -> (j' < i + batchSize)%nat).
  { intros j' s [Hin|Hin]%elem_of_app.
    - destruct (Hlaunched _ Hin) as (j0 & [= ->] & Hrange). lia.
    - now apply list_elem_of_fmap in Hin as ([j0 r0] & [=] & _). }
  destruct r as [batchResults|e0].
  - apply IH in Hrun
      as (j & item & w0 & w2 & before & after & Hj & Hitem & Hjob & -> & Hb & Hs).
    exists j, item, w0, w2,
      ((launched ++ settledEvents settled)
       ++ [Progress (Nat.min (i + batchSize) (length items)) (length items)]
       ++ before), after.
    split; [lia|]. split; [exact Hitem|]. split; [exact Hjob|].
    split; [now rewrite <- !app_assoc|]. split.
    + intros j' e' [Hin|[Hin|Hin]%elem_of_app]%elem_of_app.
      * now apply (Hnone j' e').
      * apply list_elem_of_singleton in Hin. discriminate.
      * now apply (Hb j' e').
    + intros j'. rewrite <- !app_assoc.
      intros [Hin|[Hin|[Hin|Hin]%elem_of_app]%elem_of_app]%elem_of_app.
      * assert (j' < i + batchSize)%nat; [|lia].
        apply (Hstarted j' []). apply elem_of_app. now left.
      * apply list_elem_of_fmap in Hin as ([j0 r0] & [=] & _).
      * apply list_elem_of_singleton in Hin. discriminate.
      * apply Hs. cbn [app] in Hin. exact Hin.
  - injection Hrun as <- <- <-.
    destruct Hr as (first & j & rest & -> & Hok).
    destruct (Hjobs j (Throw e0)) as (item & w0 & w2 & Hj & Hitem & Hjob).
    { apply elem_of_app. right. apply elem_of_cons. now left. }
    apply lookup_take_Some in Hitem as [Hitem Hlt].
    rewrite lookup_drop in Hitem.
    replace (i + (j - i))%nat with j in Hitem by lia.
    exists j, item, w0, w2, (launched ++ settledEvents first),
      (settledEvents rest).
    split; [exact Hj|]. split; [exact Hitem|]. split; [exact Hjob|].
    split.
    { rewrite fmap_app, fmap_cons. cbn [fst snd].
      now rewrite <- !app_assoc. }
    split.
    + intros j' e' [Hin|Hin]%elem_of_app.
      * destruct (Hlaunched _ Hin) as (j0 & [=] & _).
      * apply list_elem_of_fmap in Hin as ([j0 r0] & [= -> <-] & Hin).
        now destruct (Hok _ _ Hin).
    + intros j' Hin.
      assert (j' < i + batchSize)%nat; [|lia].
      apply (Hstarted j' (first ++ (j, Throw e0) :: rest)).
      rewrite fmap_app, fmap_cons. cbn [fst snd].
      now rewrite <- app_assoc in Hin.
Qed.

(** X7. When a job rejects, [processInBatches] rejects with the error
    of the first job that was seen to reject, and the chunks after the
    one of this job are never launched: no job from [batchSize] places
    after it on is started. *)
Theorem processInBatches_stops_at_rejection (items : list T)
    (batchSize : nat) (w w' : W) (e : string) (trace : list (event R)) :
  processInBatches processor sched items batchSize w
  = Some (Throw e, trace, w') ->
  exists j item w0 w1 before after,
    items !! j = Some item /\
    processor item w0 = (Throw e, w1) /\
    trace = before ++ Settled j (Throw e) :: after /\
    (forall j' e', Settled j' (Throw e') ∉ before) /\
    (forall j', Started j' ∈ trace -> (j' < j + batchSize)%nat).
Proof.
  unfold processInBatches. intros Hrun.
  apply processInBatches_loop_rejects in Hrun
    as (j & item & w0 & w1 & before & after & _ & Hitem & Hjob & Ht & Hb & Hs).
  cbn [app] in Ht. subst trace.
  exists j, item, w0, w1, before, after. now repeat split.
Qed.

(** X8. With batch size 0 the loop never ends when there is an item to
    process: whatever the number of iterations allowed, it is used up.
    Without items the function returns the empty list at once, for every
    batch size, without launching a job. *)
Theorem processInBatches_zero_batch_size (item : T) (items : list T)
    (batchSize : nat) (w : W) :
  (forall fuel,
     processInBatches_loop processor sched fuel (item :: items) 0 0 [] [] w
     = None)
  /\ processInBatches processor sched (item :: items) 0 w = None
  /\ processInBatches processor sched [] batchSize w = Some (Ok [], [], w).
Proof.
  split; [|split].
  - intros fuel. apply processInBatches_loop_zero. cbn. lia.
  - apply processInBatches_loop_zero. cbn. lia.
  - reflexivity.
Qed.

End SchedulerRejection.

(** Five jobs in chunks of two, the third of which rejects: the jobs of
    the last chunk are not started. *)
Lemma processInBatches_stops_at_third :
  exists j item w0 w1 before after,
    ["a"; "b"; "c"; "d"; "e"] !! j = Some item /\
    failingOn "c" item w0 = (Throw "cannot process c", w1) /\
    [Started 0%nat; Started 1%nat; Settled 1%nat (Ok "b");
     Settled 0%nat (Ok "a"); Progress 2 5;
     Started 2%nat; Started 3%nat; Settled 3%nat (Ok "d");
     Settled 2%nat (Throw "cannot process c")]
    = before ++ Settled j (Throw "cannot process c") :: after /\
    (forall j' e', Settled j' (Throw e') ∉ before) /\
    (forall j',
       Started j' ∈
         [Started 0%nat; Started 1%nat; Settled 1%nat (Ok "b");
          Settled 0%nat (Ok "a"); Progress 2 5;
          Started 2%nat; Started 3%nat; Settled 3%nat (Ok "d");
          Settled 2%nat (Throw "cannot process c")] ->
       (j' < j + 2)%nat).
Proof.
  apply (processInBatches_stops_at_rejection (failingOn "c")
           Scenario.lastFirst ["a"; "b"; "c"; "d"; "e"] 2 tt tt).
  reflexivity.
Defined.

(** ** The files of an outcome, and a second run *)

Section Mirror.
Context {FS : Type} {fileSystem : FileSystem FS}.
Variable md5_hex : string -> string.
Variable fetch_sourcemap : string -> response SourcemapDocument.

Local Abbreviation job :=
  (downloadAndExtractSourcemap md5_hex fetch_sourcemap).

(** The loop pushes one file for every entry it gets through, with the
    local path of the entry, in the order of the entries; it gets
    through all of them unless an exception ends it. *)
Lemma extractFrom_entries (contents : list (option string)) :
  forall remaining i results w r results' w',
    extractFrom md5_hex i remaining contents results w = (r, results', w') ->
    exists done,
      path <$> files results'
      = (path <$> files results) ++ (entryPath <$> done)
      /\ match r with
         | Ok _ => done = entriesFrom i remaining contents
         | Throw _ =>
             exists rest, rest <> [] /\
               entriesFrom i remaining contents = done ++ rest
         end.
Proof.
  induction remaining as [|sourcePath later IH];
    intros i results w r results' w' Hrun; cbn [extractFrom entriesFrom] in *.
  - injection Hrun as <- <- <-. exists []. split; [|reflexivity].
    cbn. now rewrite app_nil_r.
  - destruct (contentAt contents i) as [content|]; [|now apply IH in Hrun].
    destruct (extractSource md5_hex sourcePath content w)
      as [[file|e] w1] eqn:Hentry.
    + apply IH in Hrun as (done & Hpaths & Hr).
      exists ((sourcePath, content) :: done). split.
      * rewrite Hpaths. cbn [pushFile files].
        rewrite fmap_app, <- app_assoc. cbn [fmap list_fmap app].
        now rewrite (extractSource_path _ _ _ _ _ _ Hentry).
      * destruct r; [now rewrite Hr|].
        destruct Hr as (rest & Hne & ->). now exists rest.
    + injection Hrun as <- <- <-. exists []. split.
      * cbn. now rewrite app_nil_r.
      * now exists ((sourcePath, content) :: entriesFrom (S i) later contents).
Qed.

(** X9. The files of an outcome follow the sourcemap: one file for
    every source whose content is there (not missing, [null] or empty),
    with the local path of that source, in the order of [sources].
    A job that fails part-way keeps the files of the entries before the
    one that failed, and has fewer files than there are entries. *)
Theorem outcome_files_follow_sources (url0 : string) (w : FS)
    (status : nat) (doc : SourcemapDocument) (srcs : list string)
    (contents : list (option string)) :
  fetch_sourcemap url0 = Response status (Json doc) ->
  ok (Response status (Json doc)) = true ->
  sources doc = Some srcs -> sourcesContent doc = Some contents ->
  exists outcome w',
    job url0 w = (Ok outcome, w')
    /\ (path <$> files outcome)
         `prefix_of` (entryPath <$> entriesFrom 0 srcs contents)
    /\ (success outcome = true ->
        path <$> files outcome = entryPath <$> entriesFrom 0 srcs contents)
    /\ (success outcome = false ->
        (length (files outcome)
         < length (entriesFrom 0 srcs contents))%nat).
Proof.
  intros Hfetch Hok Hsrcs Hcontents.
  unfold downloadAndExtractSourcemap, tryBlock. cbn [newResults url].
  rewrite Hfetch, Hok, Hsrcs, Hcontents. cbn [negb].
  destruct (extractFrom md5_hex 0 srcs contents (newResults url0) w)
    as [[r results] w'] eqn:Hrun.
  pose proof (extractFrom_files md5_hex contents _ _ _ _ _ _ _ Hrun)
    as (_ & Hsuccess & _).
  apply extractFrom_entries in Hrun as (done & Hpaths & Hr).
  cbn [newResults files fmap list_fmap app] in Hpaths.
  destruct r as [[]|e].
  - exists results, w'. subst done. rewrite Hpaths.
    split; [reflexivity|]. split; [reflexivity|]. split; [reflexivity|].
    rewrite Hsuccess. discriminate.
  - exists (setFailure results e), w'. cbn [setFailure files success].
    destruct Hr as (rest & Hne & ->). rewrite Hpaths.
    split; [reflexivity|].
    split; [exists (entryPath <$> rest); now rewrite fmap_app|].
    split; [discriminate|]. intros _.
    rewrite <- (length_fmap path), Hpaths, length_fmap, length_app.
    destruct rest; [congruence|cbn; lia].
Qed.

(** *** What a job leaves behind *)

Context {lawful : LawfulFileSystem FS}.

(** The files that are not the local path of the entry stay as they
    are, content included. *)
Lemma extractSource_keeps_file (sourcePath content : string)
    (w w' : FS) (file : FileOutcome) (q old : string) :
  extractSource md5_hex sourcePath content w = (Ok file, w') ->
  q <> localPath sourcePath ->
  fs_access q w = Ok tt -> fs_readFile q w = Ok old ->
  fs_access q w' = Ok tt /\ fs_readFile q w' = Ok old.
Proof.
  intros Hentry Hq Haccess Hread.
  apply extractSource_inv in Hentry
    as [(_ & _ & _ & _ & _ & ->)
       |[(_ & e & _ & [=] & _)
        |[(_ & o & e & _ & _ & _ & [=] & _)
         |(previous & _ & [(e & _ & [=])
                          |(w1 & Hmkdir & [(e & _ & [=])|(Hwrite & _)])])]]].
  - now split.
  - destruct (mkdir_keeps_files _ _ _ q old Hmkdir Haccess Hread)
      as [Haccess1 Hread1].
    exact (write_keeps_others _ _ _ _ q old Hwrite Hq Haccess1 Hread1).
Qed.

Lemma extractFrom_keeps_file (contents : list (option string))
    (q old : string) :
  forall remaining i results w r results' w',
    extractFrom md5_hex i remaining contents results w
    = (Ok r, results', w') ->
    q ∉ entryPath <$> entriesFrom i remaining contents ->
    fs_access q w = Ok tt -> fs_readFile q w = Ok old ->
    fs_access q w' = Ok tt /\ fs_readFile q w' = Ok old.
Proof.
  induction remaining as [|sourcePath later IH];
    intros i results w r results' w' Hrun Hq Haccess Hread;
    cbn [extractFrom entriesFrom] in *.
  - injection Hrun as _ _ <-. now split.
  - destruct (contentAt contents i) as [content|];
      [|eapply IH; eassumption].
    destruct (extractSource md5_hex sourcePath content w)
      as [[file|e] w1] eqn:Hentry; [|discriminate].
    cbn [fmap list_fmap] in Hq. apply not_elem_of_cons in Hq as [Hne Hq].
    destruct (extractSource_keeps_file _ _ _ _ _ q old Hentry Hne Haccess Hread)
      as [Haccess1 Hread1].
    eapply IH; eassumption.
Qed.


Lemma extractSource_mirrors (sourcePath content : string)
    (w w' : FS) (file : FileOutcome) :
  extractSource md5_hex sourcePath content w = (Ok file, w') ->
  mirrors md5_hex (localPath sourcePath) content w'.
Proof.
  intros Hentry.
  apply extractSource_inv in Hentry
    as [(Haccess & old & Hread & Hsame & _ & ->)
       |[(_ & e & _ & [=] & _)
        |[(_ & o & e & _ & _ & _ & [=] & _)
         |(previous & _ & [(e & _ & [=])
                          |(w1 & Hmkdir & [(e & _ & [=])|(Hwrite & _)])])]]].
  - split; [exact Haccess|]. now exists old.
  - destruct (write_then_read _ _ _ _ Hwrite) as [Haccess Hread].
    split; [exact Haccess|]. now exists content.
Qed.

Lemma extractFrom_keeps_mirrored (contents : list (option string))
    (q other : string) (remaining : list string) (i : nat)
    (results results' : ExtractionOutcome) (w w' : FS) (r : unit) :
  extractFrom md5_hex i remaining contents results w = (Ok r, results', w') ->
  q ∉ entryPath <$> entriesFrom i remaining contents ->
  mirrors md5_hex q other w -> mirrors md5_hex q other w'.
Proof.
  intros Hrun Hq (Haccess & old & Hread & Hsame).
  destruct (extractFrom_keeps_file contents q old _ _ _ _ _ _ _
              Hrun Hq Haccess Hread) as [Haccess' Hread'].
  split; [exact Haccess'|]. now exists old.
Qed.

(** After a loop that ended without exception, the last entry of every
    local path is mirrored. *)
Lemma extractFrom_mirrors_last (contents : list (option string)) :
  forall remaining i results w r results' w',
    extractFrom md5_hex i remaining contents results w
    = (Ok r, results', w') ->
    forall before entry after,
      entriesFrom i remaining contents = before ++ entry :: after ->
      entryPath entry ∉ entryPath <$> after ->
      mirrors md5_hex (entryPath entry) (snd entry) w'.
Proof.
  induction remaining as [|sourcePath later IH];
    intros i results w r results' w' Hrun before entry after Hsplit Hlast;
    cbn [extractFrom entriesFrom] in *.
  - now destruct before.
  - destruct (contentAt contents i) as [content|];
      [|eapply IH; eassumption].
    destruct (extractSource md5_hex sourcePath content w)
      as [[file|e] w1] eqn:Hentry; [|discriminate].
    destruct before as [|first before]; cbn [app] in Hsplit;
      injection Hsplit as Hhead Htail.
    + subst entry.
      eapply extractFrom_keeps_mirrored; [exact Hrun| |].
      * now rewrite Htail.
      * eapply extractSource_mirrors, Hentry.
    + eapply IH; [exact Hrun|exact Htail|exact Hlast].
Qed.

(** X10. What a successful job leaves behind: for every source with
    content, the local file is there and has the digest of the content
    of that source; when several sources have the same local path, this
    holds for the last of them.  The file system is any one in which a
    written file reads back and the other files stay readable. *)
Theorem successful_job_mirrors_sources (url0 : string) (w w' : FS)
    (outcome : ExtractionOutcome) (status : nat) (doc : SourcemapDocument)
    (srcs : list string) (contents : list (option string)) :
  fetch_sourcemap url0 = Response status (Json doc) ->
  ok (Response status (Json doc)) = true ->
  sources doc = Some srcs -> sourcesContent doc = Some contents ->
  job url0 w = (Ok outcome, w') ->
  success outcome = true ->
  forall before entry after,
    entriesFrom 0 srcs contents = before ++ entry :: after ->
    entryPath entry ∉ entryPath <$> after ->
    fs_access (entryPath entry) w' = Ok tt
    /\ exists found,
         fs_readFile (entryPath entry) w' = Ok found
         /\ md5_hex found = md5_hex (snd entry).
Proof.
  intros Hfetch Hok Hsrcs Hcontents Hjob Hsuccess before entry after.
  unfold downloadAndExtractSourcemap, tryBlock in Hjob.
  cbn [newResults url] in Hjob.
  rewrite Hfetch, Hok, Hsrcs, Hcontents in Hjob. cbn [negb] in Hjob.
  destruct (extractFrom md5_hex 0 srcs contents (newResults url0) w)
    as [[[[]|e] results] w1] eqn:Hrun; injection Hjob as <- <-;
    [|discriminate].
  intros Hsplit Hlast.
  exact (extractFrom_mirrors_last _ _ _ _ _ _ _ _ Hrun _ _ _ Hsplit Hlast).
Qed.

(** X11. A successful job leaves the other files alone: a readable file
    whose path is not the local path of a source with content is still
    there afterwards, with the content it had. *)
Theorem successful_job_keeps_other_files (url0 : string) (w w' : FS)
    (outcome : ExtractionOutcome) (status : nat) (doc : SourcemapDocument)
    (srcs : list string) (contents : list (option string))
    (q old : string) :
  fetch_sourcemap url0 = Response status (Json doc) ->
  ok (Response status (Json doc)) = true ->
  sources doc = Some srcs -> sourcesContent doc = Some contents ->
  job url0 w = (Ok outcome, w') ->
  success outcome = true ->
  q ∉ entryPath <$> entriesFrom 0 srcs contents ->
  fs_access q w = Ok tt -> fs_readFile q w = Ok old ->
  fs_access q w' = Ok tt /\ fs_readFile q w' = Ok old.
Proof.
  intros Hfetch Hok Hsrcs Hcontents Hjob Hsuccess Hq Haccess Hread.
  unfold downloadAndExtractSourcemap, tryBlock in Hjob.
  cbn [newResults url] in Hjob.
  rewrite Hfetch, Hok, Hsrcs, Hcontents in Hjob. cbn [negb] in Hjob.
  destruct (extractFrom md5_hex 0 srcs contents (newResults url0) w)
    as [[[[]|e] results] w1] eqn:Hrun; injection Hjob as <- <-;
    [|discriminate].
  exact (extractFrom_keeps_file _ _ _ _ _ _ _ _ _ _ Hrun Hq Haccess Hread).
Qed.

(** On a mirror that has every entry, the loop finds nothing to do. *)
Lemma extractFrom_mirrored (contents : list (option string)) (w : FS) :
  forall remaining i results,
    (forall entry, entry ∈ entriesFrom i remaining contents ->
       mirrors md5_hex (entryPath entry) (snd entry) w) ->
    exists results',
      extractFrom md5_hex i remaining contents results w
      = (Ok tt, results', w)
      /\ success results' = success results
      /\ files results'
         = files results
           ++ ((fun entry => {| path := entryPath entry; isChanged := false;
                                previousModified := Absent |}) <$>
                 entriesFrom i remaining contents).
Proof.
  induction remaining as [|sourcePath later IH]; intros i results Hall;
    cbn [extractFrom entriesFrom] in *.
  - exists results. now rewrite app_nil_r.
  - destruct (contentAt contents i) as [content|]; [|now apply IH].
    destruct (Hall (sourcePath, content)) as (Haccess & old & Hread & Hsame);
      [apply elem_of_cons; now left|].
    unfold entryPath in Haccess, Hread. cbn [fst snd] in Haccess, Hread, Hsame.
    rewrite (extractSource_unchanged md5_hex _ _ _ _ Haccess Hread Hsame).
    destruct (IH (S i)
                (pushFile results
                   {| path := localPath sourcePath; isChanged := false;
                      previousModified := Absent |}))
      as (results' & -> & Hs & Hfiles).
    { intros entry Hin. apply Hall, elem_of_cons. now right. }
    exists results'. split; [reflexivity|]. split; [exact Hs|].
    rewrite Hfiles. cbn [pushFile files fmap list_fmap].
    now rewrite <- app_assoc.
Qed.

(** X12. Running a job again finds nothing to do: when a job succeeded
    and no two of its entries have the same local path, the same job on
    the file system it left succeeds, reports the same paths, none of
    them changed, and leaves the file system as it is.  The file system
    is any one in which a written file reads back and the other files
    stay readable. *)
Theorem second_run_changes_nothing (url0 : string) (w w1 : FS)
    (first : ExtractionOutcome) (status : nat) (doc : SourcemapDocument)
    (srcs : list string) (contents : list (option string)) :
  fetch_sourcemap url0 = Response status (Json doc) ->
  ok (Response status (Json doc)) = true ->
  sources doc = Some srcs -> sourcesContent doc = Some contents ->
  NoDup (entryPath <$> entriesFrom 0 srcs contents) ->
  job url0 w = (Ok first, w1) ->
  success first = true ->
  exists second,
    job url0 w1 = (Ok second, w1)
    /\ success second = true
    /\ path <$> files second = path <$> files first
    /\ forall file, file ∈ files second -> isChanged file = false.
Proof.
  intros Hfetch Hok Hsrcs Hcontents Hnd Hfirst Hsuccess.
  unfold downloadAndExtractSourcemap, tryBlock in *. cbn [newResults url] in *.
  rewrite Hfetch, Hok, Hsrcs, Hcontents in *. cbn [negb] in *.
  destruct (extractFrom md5_hex 0 srcs contents (newResults url0) w)
    as [[[[]|e] results] w'] eqn:Hrun; injection Hfirst as <- <-;
    [|discriminate].
  assert (Hall : forall entry, entry ∈ entriesFrom 0 srcs contents ->
            mirrors md5_hex (entryPath entry) (snd entry) w').
  { intros entry (before & after & Hsplit)%list_elem_of_split.
    apply (extractFrom_mirrors_last _ _ _ _ _ _ _ _ Hrun before entry after
             Hsplit).
    rewrite Hsplit, fmap_app, fmap_cons in Hnd.
    apply NoDup_app in Hnd as (_ & _ & Hnd).
    now apply NoDup_cons in Hnd as [Hfresh _]. }
  destruct (extractFrom_mirrored contents w' srcs 0%nat (newResults url0) Hall)
    as (second & -> & Hs & Hfiles).
  exists second. split; [reflexivity|]. split; [exact Hs|].
  cbn [newResults files app] in Hfiles.
  apply extractFrom_entries in Hrun as (done & Hpaths & ->).
  cbn [newResults files fmap list_fmap app] in Hpaths.
  split.
  - rewrite Hpaths, Hfiles, <- list_fmap_compose. reflexivity.
  - intros file Hin. rewrite Hfiles in Hin.
    now apply list_elem_of_fmap in Hin as (entry & -> & _).
Qed.

End Mirror.

(** ** An unchanged entry *)

Section UnchangedEntry.
Context {FS : Type} {fileSystem : FileSystem FS}.
Variable md5_hex : string -> string.


End UnchangedEntry.


(** ** The run as a whole *)

Section WholeRun.
Context {FS : Type} {fileSystem : FileSystem FS}.
Variable md5_hex : string -> string.
Variable fetch_sourcemap : string -> response SourcemapDocument.
Variable fetch_revisions : response RevisionsDocument.
Variable stringifySorted : list string -> string.
Variable localeCompare : string -> string -> Z.
Variable now : Z.
Variable sched : list nat -> nat.

Local Abbreviation job :=
  (downloadAndExtractSourcemap md5_hex fetch_sourcemap).
Local Abbreviation run :=
  (main md5_hex fetch_sourcemap fetch_revisions stringifySorted
        localeCompare now sched).
Local Abbreviation refresh :=
  (updateRevisions fetch_revisions stringifySorted).

Lemma job_url (url0 : string) (w w' : FS) (outcome : ExtractionOutcome) :
  job url0 w = (Ok outcome, w') -> url outcome = url0.
Proof.
  unfold downloadAndExtractSourcemap. intros E.
  destruct (tryBlock md5_hex fetch_sourcemap (newResults url0) w)
    as [[r results] w1] eqn:Htry.
  assert (Hurl : url results = url0).
  { destruct (tryBlock_cases md5_hex fetch_sourcemap url0 w)
      as [(e & _ & H)
         |[(status & payload & _ & _ & H)
          |[(status & e & _ & _ & H)
           |[(status & doc & _ & _ & _ & H)
            |(status & doc & srcs & contents & _ & _ & _ & _ & H)]]]];
      rewrite H in Htry; try (now injection Htry as _ <- _).
    now apply extractFrom_files in Htry as (-> & _). }
  destruct r; injection E as <- _; exact Hurl.
Qed.

(** X13. The batch run over the links always ends with one outcome for
    every link, in the order of [links.json], and the outcome at place
    [k] carries the URL made from link [k]: [https://spaces.im], the
    link, and [.map].  The failure list names the URLs of the outcomes
    that failed, in this order. *)
Theorem outcomes_follow_links (links : list string) (w : FS) :
  exists results trace w',
    processInBatches job sched (sourcemapLinks links) CONCURRENCY w
    = Some (Ok results, trace, w')
    /\ url <$> results
       = (fun link => "https://spaces.im" +:+ link +:+ ".map") <$> links
    /\ fst <$> failed (aggregate results)
       = url <$> filter (fun outcome => success outcome = false) results
    /\ (fst <$> failed (aggregate results))
         `sublist_of`
         ((fun link => "https://spaces.im" +:+ link +:+ ".map") <$> links).
Proof.
  unfold processInBatches.
  destruct (processInBatches_loop_spec job sched
              (job_returns md5_hex fetch_sourcemap) (sourcemapLinks links)
              CONCURRENCY ltac:(unfold CONCURRENCY; lia)
              (S (length (sourcemapLinks links))) 0%nat [] [] w)
    as (more & later & w' & E & Hlen & _ & Hjobs); [lia|].
  exists more, later, w'. split; [exact E|].
  change ((fun link => "https://spaces.im" +:+ link +:+ ".map") <$> links)
    with (sourcemapLinks links).
  assert (Hurls : url <$> more = sourcemapLinks links).
  { apply list_eq. intros k. rewrite list_lookup_fmap.
    destruct (sourcemapLinks links !! k) as [item|] eqn:Hk.
    - destruct (Hjobs k item Hk) as (v & w0 & w1 & -> & Hjob & _).
      cbn. f_equal. eapply job_url, Hjob.
    - apply lookup_ge_None in Hk.
      rewrite (proj2 (lookup_ge_None more k)); [reflexivity|lia]. }
  assert (Hfailed : fst <$> failed (aggregate more)
                    = url <$> filter (fun outcome => success outcome = false)
                                     more).
  { unfold aggregate.
    destruct (aggregate_fold more {| changed := []; failed := [] |})
      as [_ ->]. cbn [failed app].
    rewrite <- list_fmap_compose. reflexivity. }
  split; [exact Hurls|]. split; [exact Hfailed|].
  rewrite Hfailed, <- Hurls.
  apply fmap_sublist, sublist_filter.
Qed.

(** X14. The refresh of [revisions.json] is silent only for an answer
    whose status is not 2xx: it then returns without touching the file
    system, and when it returns otherwise it has written the file.  For
    a 2xx answer with [js] and [css] it is the one write of
    [revisions.json], with the keys of [js] followed by those of [css]
    handed to the sorting.  It throws when the request is rejected, when
    the body of a 2xx answer is not JSON, is [null], or lacks [js] or
    [css], and when the write fails; [main] then rejects with the same
    error before it reads the links or requests a sourcemap, the file
    system being as the refresh left it. *)
Theorem revisions_refresh_cases (links : parsedLinks) (w : FS) :
  (forall status payload,
     fetch_revisions = Response status payload ->
     ok fetch_revisions = false -> refresh w = (Ok tt, w))
  /\ (forall status res jsPaths cssPaths,
        fetch_revisions = Response status (Json res) ->
        ok fetch_revisions = true ->
        js res = Some jsPaths -> css res = Some cssPaths ->
        refresh w
        = fs_writeFile "revisions.json"
            (stringifySorted (jsPaths ++ cssPaths)) w)
  /\ (forall e,
        fetch_revisions = FetchFailed e -> refresh w = (Throw e, w))
  /\ (forall status e,
        fetch_revisions = Response status (BadJson e) ->
        ok fetch_revisions = true -> refresh w = (Throw e, w))
  /\ (forall status,
        fetch_revisions = Response status JsonNull ->
        ok fetch_revisions = true ->
        refresh w
        = (Throw "Cannot read properties of null (reading 'js')", w))
  /\ (forall status res,
        fetch_revisions = Response status (Json res) ->
        ok fetch_revisions = true ->
        js res = None \/ css res = None ->
        refresh w
        = (Throw "Cannot convert undefined or null to object", w))
  /\ (forall w1,
        refresh w = (Ok tt, w1) ->
        (exists status payload,
           fetch_revisions = Response status payload /\
           ok fetch_revisions = false /\ w1 = w)
        \/ (exists status res jsPaths cssPaths,
              fetch_revisions = Response status (Json res) /\
              ok fetch_revisions = true /\
              js res = Some jsPaths /\ css res = Some cssPaths /\
              fs_writeFile "revisions.json"
                (stringifySorted (jsPaths ++ cssPaths)) w
              = (Ok tt, w1)))
  /\ (forall e w1,
        refresh w = (Throw e, w1) ->
        run links w = Some (Throw e, w1)
        /\ ((fetch_revisions = FetchFailed e /\ w1 = w)
            \/ (exists status,
                  fetch_revisions = Response status (BadJson e) /\ w1 = w)
            \/ (exists status,
                  fetch_revisions = Response status JsonNull /\ w1 = w)
            \/ (exists status res,
                  fetch_revisions = Response status (Json res) /\
                  (js res = None \/ css res = None) /\ w1 = w)
            \/ (exists status res jsPaths cssPaths,
                  fetch_revisions = Response status (Json res) /\
                  js res = Some jsPaths /\ css res = Some cssPaths /\
                  fs_writeFile "revisions.json"
                    (stringifySorted (jsPaths ++ cssPaths)) w
                  = (Throw e, w1)))).
Proof.
  split; [|split; [|split; [|split; [|split; [|split; [|split]]]]]].
  - intros status payload Hfetch Hok. unfold updateRevisions.
    rewrite Hok. now rewrite Hfetch.
  - intros status res jsPaths cssPaths Hfetch Hok Hjs Hcss.
    unfold updateRevisions. rewrite Hok. rewrite Hfetch.
    cbn [negb]. now rewrite Hjs, Hcss.
  - intros e Hfetch. unfold updateRevisions. now rewrite Hfetch.
  - intros status e Hfetch Hok. unfold updateRevisions.
    rewrite Hok. now rewrite Hfetch.
  - intros status Hfetch Hok. unfold updateRevisions.
    rewrite Hok. now rewrite Hfetch.
  - intros status res Hfetch Hok Hmissing. unfold updateRevisions.
    rewrite Hok. rewrite Hfetch. cbn [negb].
    destruct Hmissing as [-> | ->]; [reflexivity|].
    now destruct (js res).
  - intros w1 Hok. unfold updateRevisions in Hok.
    destruct fetch_revisions as [message|status payload] eqn:Hfetch;
      [discriminate|].
    destruct (ok (Response status payload)) eqn:Hstatus; cbn [negb] in Hok.
    + right. destruct payload as [message| |res]; try discriminate.
      destruct (js res) as [jsPaths|] eqn:Hjs; [|discriminate].
      destruct (css res) as [cssPaths|] eqn:Hcss; [|discriminate].
      now exists status, res, jsPaths, cssPaths.
    + left. injection Hok as <-. now exists status, payload.
  - intros e w1 Hthrow. split; [unfold main; now rewrite Hthrow|].
    unfold updateRevisions in Hthrow.
    destruct fetch_revisions as [message|status payload] eqn:Hfetch.
    + injection Hthrow as <- <-. now left.
    + destruct (negb (ok (Response status payload))); [discriminate|].
      destruct payload as [message| |res].
      * injection Hthrow as <- <-. right. left. now exists status.
      * injection Hthrow as <- <-. right. right. left. now exists status.
      * destruct (js res) as [jsPaths|] eqn:Hjs.
        -- destruct (css res) as [cssPaths|] eqn:Hcss.
           ++ right. right. right. right.
              now exists status, res, jsPaths, cssPaths.
           ++ injection Hthrow as <- <-. right. right. right. left.
              exists status, res. split; [reflexivity|]. split; [now right|].
              reflexivity.
        -- injection Hthrow as <- <-. right. right. right. left.
           exists status, res. split; [reflexivity|]. split; [now left|].
           reflexivity.
Qed.

(** X15. [main] always ends.  When it exits, the exit code is 0; when
    it rejects, the error comes from the refresh of the revisions, from
    [JSON.parse(links).map] on a [links.json] that does not hold an
    array, or from writing the report, never from a sourcemap job. *)
Theorem main_always_ends (links : parsedLinks) (w : FS) :
  exists r w',
    run links w = Some (r, w')
    /\ match r with
       | Ok (Exited code) => code = 0
       | Ok Returned => True
       | Throw e =>
           refresh w = (Throw e, w')
           \/ (links = Unparsable e /\ refresh w = (Ok tt, w'))
           \/ exists entries results w2,
                links = Links entries /\
                length results = length entries /\
                finish localeCompare now (aggregate results) w2
                = (Throw e, w')
       end.
Proof.
  destruct (refresh w) as [[[]|e] w1] eqn:Hrefresh.
  - destruct links as [message|entries].
    { exists (Throw message), w1. split; [|right; left; now split].
      unfold main. now rewrite Hrefresh. }
    destruct (main_reaches_finish md5_hex fetch_sourcemap fetch_revisions
                stringifySorted localeCompare now sched entries w w1 Hrefresh)
      as (results & w2 & Hlen & ->).
    destruct (finish localeCompare now (aggregate results) w2)
      as [r w'] eqn:Hfinish.
    exists r, w'. split; [reflexivity|].
    destruct r as [[code|]|e].
    + unfold finish in Hfinish.
      destruct (_ && _).
      * now injection Hfinish as <- _.
      * unfold mbind, M_bind in Hfinish.
        destruct (fs_writeFile "commit-message.txt" _ w2) as [[[]|e] w3];
          [|discriminate].
        destruct (fs_writeFile "telegram-message.txt" _ w3) as [[[]|e] w4];
          discriminate.
    + exact I.
    + right. right. now exists entries, results, w2.
  - exists (Throw e), w1. split; [|now left].
    unfold main. now rewrite Hrefresh.
Qed.

End WholeRun.

(** ** The file system of the concrete runs *)

Lemma MemFS_lookup_file (q old : string) (fs : MemFS.t) :
  MemFS.readFile q fs = Ok old ->
  MemFS.isDots q = false /\
  exists mtime, MemFS.nodes fs !! q = Some (MemFS.File old mtime).
Proof.
  unfold MemFS.readFile, MemFS.lookup.
  destruct (MemFS.isDots q); [discriminate|].
  destruct (MemFS.nodes fs !! q) as [[content mtime|mtime]|];
    try discriminate.
  intros [= ->]. split; [reflexivity|]. now exists mtime.
Qed.

Lemma MemFS_file_there (q old : string) (mtime : Z) (fs : MemFS.t) :
  MemFS.isDots q = false ->
  MemFS.nodes fs !! q = Some (MemFS.File old mtime) ->
  MemFS.access q fs = Ok tt /\ MemFS.readFile q fs = Ok old.
Proof.
  intros Hdots Hnode. unfold MemFS.access, MemFS.readFile, MemFS.lookup.
  now rewrite Hdots, Hnode.
Qed.

Lemma MemFS_mkdir_each_keeps (d q old : string) (mtime : Z) :
  forall dirs fs fs',
    MemFS.mkdir_each d dirs fs = (Ok tt, fs') ->
    MemFS.nodes fs !! q = Some (MemFS.File old mtime) ->
    MemFS.nodes fs' !! q = Some (MemFS.File old mtime).
Proof.
  induction dirs as [|p deeper IH]; intros fs fs' Hrun Hnode;
    cbn [MemFS.mkdir_each] in Hrun.
  - now injection Hrun as <-.
  - unfold MemFS.lookup in Hrun.
    destruct (MemFS.isDots p); [now apply (IH fs)|].
    destruct (MemFS.nodes fs !! p) as [[content t|t]|] eqn:Hp.
    + destruct (String.eqb p d); discriminate.
    + now apply (IH fs).
    + apply (IH _ _ Hrun). cbn [MemFS.nodes].
      rewrite lookup_insert_ne; [exact Hnode|]. intros ->. congruence.
Qed.

(** The in-memory file system keeps what was written. *)
Lemma MemFS_lawful : LawfulFileSystem MemFS.t.
Proof.
  split.
  - intros p content w w' Hwrite. cbn in *.
    unfold MemFS.writeFile in Hwrite. unfold MemFS.lookup at 1 in Hwrite.
    destruct (MemFS.isDots p) eqn:Hdots; [discriminate|].
    assert (Hw' : w' = {| MemFS.nodes :=
                            <[p := MemFS.File content (MemFS.clock w)]>
                              (MemFS.nodes w);
                          MemFS.clock := MemFS.clock w |}).
    { destruct (MemFS.nodes w !! p) as [[c t|t]|]; try discriminate;
        destruct (MemFS.lookup (Path.dirname p) w) as [[c' t'|t']|];
        try discriminate; now injection Hwrite as <-. }
    subst w'. apply (MemFS_file_there p content (MemFS.clock w));
      [exact Hdots|]. cbn [MemFS.nodes]. apply lookup_insert_eq.
  - intros p content w w' q old Hwrite Hne _ Hread. cbn in *.
    apply MemFS_lookup_file in Hread as (Hdots & mtime & Hnode).
    apply (MemFS_file_there q old mtime); [exact Hdots|].
    unfold MemFS.writeFile in Hwrite.
    destruct (MemFS.lookup p w) as [[c t|t]|]; try discriminate;
      destruct (MemFS.lookup (Path.dirname p) w) as [[c' t'|t']|];
      try discriminate; injection Hwrite as <-; cbn [MemFS.nodes];
      now rewrite lookup_insert_ne.
  - intros d w w' q old Hmkdir _ Hread. cbn in *.
    apply MemFS_lookup_file in Hread as (Hdots & mtime & Hnode).
    apply (MemFS_file_there q old mtime); [exact Hdots|].
    eapply MemFS_mkdir_each_keeps; [exact Hmkdir|exact Hnode].
Qed.

(** *** Runs of the further properties *)

(** The files of the job on [pairMap]: the source without content is
    left out. *)
Lemma outcome_files_of_pair :
  exists outcome w',
    downloadAndExtractSourcemap Scenario.digest (Scenario.serving pairMap)
      "https://spaces.im/foo.map" (MemFS.empty 0)
    = (Ok outcome, w')
    /\ (path <$> files outcome)
         `prefix_of` ["src/app.js"; "src/lib/util.js"]
    /\ (success outcome = true ->
        path <$> files outcome = ["src/app.js"; "src/lib/util.js"])
    /\ (success outcome = false -> (length (files outcome) < 2)%nat).
Proof.
  exact (outcome_files_follow_sources Scenario.digest
           (Scenario.serving pairMap) "https://spaces.im/foo.map"
           (MemFS.empty 0) 200 pairMap
           ["webpack:///src/app.js"; "webpack:///src/empty.js";
            "webpack:///src/lib/util.js"]
           [Some "const x=1;"; None; Some "export {};"]
           eq_refl eq_refl eq_refl eq_refl).
Defined.

(** The job on [pairMap], run on an empty mirror and then again. *)
Lemma second_run_of_pair :
  exists second,
    downloadAndExtractSourcemap Scenario.digest (Scenario.serving pairMap)
      "https://spaces.im/foo.map"
      (snd (Scenario.jobFoo pairMap (MemFS.empty 0)))
    = (Ok second, snd (Scenario.jobFoo pairMap (MemFS.empty 0)))
    /\ success second = true
    /\ path <$> files second = ["src/app.js"; "src/lib/util.js"]
    /\ forall file, file ∈ files second -> isChanged file = false.
Proof.
  assert (Hnd : NoDup (entryPath <$>
                         entriesFrom 0
                           ["webpack:///src/app.js"; "webpack:///src/empty.js";
                            "webpack:///src/lib/util.js"]
                           [Some "const x=1;"; None; Some "export {};"])).
  { apply NoDup_cons. split; [|apply NoDup_singleton].
    intros H. apply list_elem_of_singleton in H. discriminate. }
  assert (Hfirst :
    downloadAndExtractSourcemap Scenario.digest (Scenario.serving pairMap)
      "https://spaces.im/foo.map" (MemFS.empty 0)
    = (Ok {| url := "https://spaces.im/foo.map"; success := true;
             files := [ {| path := "src/app.js"; isChanged := true;
                           previousModified := Null |};
                        {| path := "src/lib/util.js"; isChanged := true;
                           previousModified := Null |} ];
             error := None |},
       snd (Scenario.jobFoo pairMap (MemFS.empty 0))))
    by (vm_compute; reflexivity).
  exact (second_run_changes_nothing (lawful := MemFS_lawful)
           Scenario.digest (Scenario.serving pairMap)
           "https://spaces.im/foo.map" (MemFS.empty 0) _ _ 200 pairMap _ _
           eq_refl eq_refl eq_refl eq_refl Hnd Hfirst eq_refl).
Defined.

(** The run when the host cannot be reached for [revisions.json]. *)
Lemma revisions_unreachable_ends_run :
  updateRevisions unreachable Scenario.noStringify (MemFS.empty 0)
  = (Throw "fetch failed", MemFS.empty 0)
  /\ main Scenario.digest (Scenario.serving Scenario.appMap) unreachable
       Scenario.noStringify Scenario.compareNames 0 Scenario.inOrder
       (Links ["/foo"]) (MemFS.empty 0)
     = Some (Throw "fetch failed", MemFS.empty 0).
Proof.
  destruct (revisions_refresh_cases Scenario.digest
              (Scenario.serving Scenario.appMap) unreachable
              Scenario.noStringify Scenario.compareNames 0 Scenario.inOrder
              (Links ["/foo"]) (MemFS.empty 0))
    as (_ & _ & Hrejected & _ & _ & _ & _ & Hthrows).
  split; [exact (Hrejected "fetch failed" eq_refl)|].
  exact (proj1 (Hthrows "fetch failed" (MemFS.empty 0)
                  (Hrejected "fetch failed" eq_refl))).
Defined.

(** The mirror after the job on [twiceMap], which lists [src/app.js]
    twice: the file has the content of the second entry. *)
Lemma twice_listed_source_mirrors_the_last :
  fs_access "src/app.js" (snd (Scenario.jobFoo Scenario.twiceMap (MemFS.empty 0)))
  = Ok tt
  /\ exists found,
       fs_readFile "src/app.js"
         (snd (Scenario.jobFoo Scenario.twiceMap (MemFS.empty 0)))
       = Ok found
       /\ Scenario.digest found = Scenario.digest "const x=2;".
Proof.
  assert (Hjob :
    downloadAndExtractSourcemap Scenario.digest
      (Scenario.serving Scenario.twiceMap)
      "https://spaces.im/foo.map" (MemFS.empty 0)
    = (Ok {| url := "https://spaces.im/foo.map"; success := true;
             files := [ {| path := "src/app.js"; isChanged := true;
                           previousModified := Null |};
                        {| path := "src/app.js"; isChanged := true;
                           previousModified := Mtime 0 |} ];
             error := None |},
       snd (Scenario.jobFoo Scenario.twiceMap (MemFS.empty 0))))
    by (vm_compute; reflexivity).
  assert (Hlast : entryPath ("webpack:///src/app.js", "const x=2;")
                  ∉ entryPath <$> ([] : list (string * string))).
  { intros H. inversion H. }
  exact (successful_job_mirrors_sources (lawful := MemFS_lawful)
           Scenario.digest (Scenario.serving Scenario.twiceMap)
           "https://spaces.im/foo.map" (MemFS.empty 0) _ _ 200
           Scenario.twiceMap _ _ eq_refl eq_refl eq_refl eq_refl Hjob eq_refl
           [("webpack:///src/app.js", "const x=1;")]
           ("webpack:///src/app.js", "const x=2;") [] eq_refl Hlast).
Defined.

(** The job on [appMap] beside a file [links.json]: the file stays. *)
Lemma job_keeps_links_json :
  fs_access "links.json" (snd (Scenario.jobFoo Scenario.appMap besideLinks))
  = Ok tt
  /\ fs_readFile "links.json"
       (snd (Scenario.jobFoo Scenario.appMap besideLinks))
     = Ok "[]".
Proof.
  assert (Hjob :
    downloadAndExtractSourcemap Scenario.digest
      (Scenario.serving Scenario.appMap)
      "https://spaces.im/foo.map" besideLinks
    = (Ok {| url := "https://spaces.im/foo.map"; success := true;
             files := [ {| path := "src/app.js"; isChanged := true;
                           previousModified := Null |} ];
             error := None |},
       snd (Scenario.jobFoo Scenario.appMap besideLinks)))
    by (vm_compute; reflexivity).
  assert (Hother : "links.json"
                   ∉ entryPath <$>
                       entriesFrom 0 ["webpack:///src/app.js"]
                                   [Some "const x=1;"]).
  { intros H. apply list_elem_of_singleton in H. discriminate. }
  exact (successful_job_keeps_other_files (lawful := MemFS_lawful)
           Scenario.digest (Scenario.serving Scenario.appMap)
           "https://spaces.im/foo.map" besideLinks _ _ 200
           Scenario.appMap _ _ "links.json" "[]"
           eq_refl eq_refl eq_refl eq_refl Hjob eq_refl Hother
           eq_refl eq_refl).
Defined.


(** ** Downloads that fail, and what the report calls new *)

Section Downloads.
Context {FS : Type} {fileSystem : FileSystem FS}.
Variable md5_hex : string -> string.
Variable fetch_sourcemap : string -> response SourcemapDocument.
Variable now : Z.
Variable sched : list nat -> nat.

Local Abbreviation job :=
  (downloadAndExtractSourcemap md5_hex fetch_sourcemap).

(** X16. A download that does not get to the loop over the sources
    touches nothing: when the answer for a URL is not a 2xx answer with
    a JSON body that has [sources] and [sourcesContent], the job returns
    a failed outcome with no file and an error text, and the file system
    is as it was. *)
Theorem failed_download_touches_nothing (url0 : string) (w : FS) :
  (forall status doc srcs contents,
     fetch_sourcemap url0 = Response status (Json doc) ->
     ok (Response status (Json doc)) = true ->
     sources doc = Some srcs -> sourcesContent doc = Some contents ->
     False) ->
  exists e,
    job url0 w
    = (Ok {| url := url0; success := false; files := []; error := Some e |},
       w).
Proof.
  intros Hunusable. unfold downloadAndExtractSourcemap.
  destruct (tryBlock_cases md5_hex fetch_sourcemap url0 w)
    as [(e & _ & ->)
       |[(status & payload & _ & _ & ->)
        |[(status & e & _ & _ & ->)
         |[(status & doc & _ & _ & _ & ->)
          |(status & doc & srcs & contents & Hfetch & Hok & Hs & Hc & _)]]]].
  - now exists e.
  - now exists ("HTTP " +:+ JsString.ofNat status).
  - now exists e.
  - now exists "Invalid sourcemap format".
  - destruct (Hunusable status doc srcs contents Hfetch Hok Hs Hc).
Qed.

(** A file that a job reports as changed has [previousModified] set:
    to [null] or to a time. *)
Lemma job_changed_previous (url0 : string) (w w' : FS)
    (outcome : ExtractionOutcome) (file : FileOutcome) :
  job url0 w = (Ok outcome, w') ->
  file ∈ files outcome -> isChanged file = true ->
  previousModified file = Null \/ exists t, previousModified file = Mtime t.
Proof.
  unfold downloadAndExtractSourcemap. intros Hjob Hin Hchanged.
  destruct (tryBlock md5_hex fetch_sourcemap (newResults url0) w)
    as [[r results] w1] eqn:Htry.
  assert (Hfiles : file ∈ files results)
    by (destruct r; injection Hjob as <- _; exact Hin).
  clear Hjob Hin.
  destruct (tryBlock_cases md5_hex fetch_sourcemap url0 w)
    as [(e & _ & H)
       |[(status & payload & _ & _ & H)
        |[(status & e & _ & _ & H)
         |[(status & doc & _ & _ & _ & H)
          |(status & doc & srcs & contents & _ & _ & _ & _ & H)]]]];
    rewrite H in Htry; try (injection Htry as _ <- _; inversion Hfiles).
  apply extractFrom_files in Htry as (_ & _ & _ & new & Hnew & Hall).
  rewrite Hnew in Hfiles. cbn [newResults files app] in Hfiles.
  rewrite Forall_forall in Hall.
  destruct (Hall file Hfiles) as (k & sourcePath & content & w_after & _ & _ & Hentry).
  apply extractSource_inv in Hentry
    as [(_ & _ & _ & _ & [= Hfile] & _)
       |[(_ & e & _ & [=] & _)
        |[(_ & o & e & _ & _ & _ & [=] & _)
         |(previous & Hfound & [(e & _ & [=])
                               |(w2 & _ & [(e & _ & [=])|(_ & [= Hfile])])])]]].
  - subst file. discriminate.
  - subst file. cbn [previousModified].
    destruct Hfound as [[_ ->]|(_ & old & t & _ & _ & _ & ->)];
      [now left|right; now exists t].
Qed.

(** X17. In the change set of a run, the value kept for a path is
    never left out: it is [null], and the report then says [(new)], or
    it is a time, and the report then gives the phrase of
    [formatTimeSince] for it. *)
Theorem change_set_values_are_set (links : list string) (w : FS) :
  exists results trace w',
    processInBatches job sched (sourcemapLinks links) CONCURRENCY w
    = Some (Ok results, trace, w')
    /\ forall p v, (p, v) ∈ changed (aggregate results) ->
         (v = Null /\ timeSuffix now v = " (new)")
         \/ exists t phrase,
              v = Mtime t /\
              RelativeTime.formatTimeSince now t = Some phrase /\
              timeSuffix now v = " (" +:+ phrase +:+ ")".
Proof.
  unfold processInBatches.
  destruct (processInBatches_loop_spec job sched
              (job_returns md5_hex fetch_sourcemap) (sourcemapLinks links)
              CONCURRENCY ltac:(unfold CONCURRENCY; lia)
              (S (length (sourcemapLinks links))) 0%nat [] [] w)
    as (more & later & w' & E & Hlen & _ & Hjobs); [lia|].
  exists more, later, w'. split; [exact E|].
  intros p v Hin.
  enough (Hset : v = Null \/ exists t, v = Mtime t).
  { destruct Hset as [->|[t ->]]; [now left|]. right.
    destruct (formatTimeSince_loop_spec (t - now)) as (u & _ & Hphrase).
    change (RelativeTime.formatTimeSince_loop RelativeTime.UNITS (t - now)
              (Z.abs (t - now)))
      with (RelativeTime.formatTimeSince now t) in Hphrase.
    eexists t, _. split; [reflexivity|]. split; [exact Hphrase|].
    unfold timeSuffix. now rewrite Hphrase. }
  unfold aggregate in Hin.
  destruct (aggregate_fold more {| changed := []; failed := [] |})
    as [Hchanged _]. rewrite Hchanged in Hin. cbn [changed] in Hin.
  apply put_all_elem in Hin
    as [(before & file & after & Hsplit & _ & <- & _)|[Hin _]];
    [|inversion Hin|apply NoDup_nil_2].
  assert (Hfile : In file (changedFiles more)).
  { rewrite Hsplit. apply in_or_app. right. now left. }
  unfold changedFiles in Hfile.
  apply in_flat_map in Hfile as (outcome & Houtcome & Hfile).
  destruct (success outcome); [|destruct Hfile].
  apply list_elem_of_In, list_elem_of_filter in Hfile as [Hchanged' Hfile].
  apply list_elem_of_In, list_elem_of_lookup in Houtcome as [k Hk].
  pose proof (lookup_lt_Some _ _ _ Hk) as Hlt.
  destruct (lookup_lt_is_Some_2 (sourcemapLinks links) k) as [item Hitem];
    [lia|].
  destruct (Hjobs k item Hitem) as (v & w0 & w1 & Hv & Hjob & _).
  cbn [Nat.add] in Hv. rewrite Hk in Hv. injection Hv as <-.
  eapply job_changed_previous; [exact Hjob|exact Hfile|].
  now apply Is_true_eq_true.
Qed.

End Downloads.

(** A URL that the host does not serve. *)
Lemma missing_sourcemap_touches_nothing :
  exists e,
    downloadAndExtractSourcemap Scenario.digest
      (Scenario.serving Scenario.appMap) "https://spaces.im/bar.map"
      besideLinks
    = (Ok {| url := "https://spaces.im/bar.map"; success := false;
             files := []; error := Some e |},
       besideLinks).
Proof.
  apply (failed_download_touches_nothing Scenario.digest
           (Scenario.serving Scenario.appMap) "https://spaces.im/bar.map"
           besideLinks).
  intros status doc srcs contents Hfetch. discriminate Hfetch.
Defined.
